(** * A shallow embedding of the snake game (src/snake.rs, src/term.rs, src/game.rs)

    Integers of the Rust source ([u16] coordinates, [i16] lengths, [u64]
    counters) are modelled as [Z] with their ranges written out.  Arithmetic
    overflow, [unwrap] on [None] and out-of-range indexing panic; a panic is
    modelled as the result [None] of an [option]-valued definition.  Overflow
    checks follow Rust's default (debug) profile. *)

From Stdlib Require Import String Ascii.
From Stdlib Require Import ZArith List Bool Lia.
Import ListNotations.
Open Scope Z_scope.

(** A small option monad for code that may panic. *)
Notation "x <- c1 ;; c2" := (match c1 with Some x => c2 | None => None end)
  (at level 61, c1 at next level, right associativity).

(** ** Machine integers *)

Definition U16_MAX : Z := 65535.

(** [u16] addition and subtraction, panicking on overflow. *)
Definition u16_add (a b : Z) : option Z :=
  if a + b <=? U16_MAX then Some (a + b) else None.

Definition u16_sub (a b : Z) : option Z :=
  if b <=? a then Some (a - b) else None.

(** [i16] subtraction, panicking on overflow. *)
Definition i16_sub (a b : Z) : option Z :=
  let r := a - b in
  if (-32768 <=? r) && (r <=? 32767) then Some r else None.

(** [x as i16] for [x : u16], and [x as u16] for an [i16] or [usize]:
    both keep the low 16 bits. *)
Definition u16_as_i16 (x : Z) : Z := if x <? 32768 then x else x - 65536.
Definition as_u16 (x : Z) : Z := x mod 65536.

(** [TermInt = u16], [Coords = (u16, u16)] (src/main.rs). *)
Definition Coords : Type := (Z * Z)%type.

Definition coords_eqb (p q : Coords) : bool :=
  (fst p =? fst q) && (snd p =? snd q).

Lemma coords_eqb_eq (p q : Coords) : coords_eqb p q = true <-> p = q.
Proof.
  destruct p as [a b], q as [c d]; unfold coords_eqb; simpl.
  rewrite andb_true_iff, !Z.eqb_eq; split; [intros [-> ->]; reflexivity | intros H; inversion H; auto].
Qed.

(** [slice.last()]. *)
Fixpoint last_opt {A} (l : list A) : option A :=
  match l with
  | [] => None
  | [a] => Some a
  | _ :: l' => last_opt l'
  end.

(** [contains] on a slice of coordinates. *)
Fixpoint contains (l : list Coords) (p : Coords) : bool :=
  match l with
  | [] => false
  | q :: l' => coords_eqb q p || contains l' p
  end.

Lemma contains_In (l : list Coords) (p : Coords) : contains l p = true <-> In p l.
Proof.
  induction l as [|q l IH]; simpl; [split; easy|].
  rewrite orb_true_iff, coords_eqb_eq, IH; split; intros [H|H]; auto.
Qed.

(** ** src/snake.rs *)
Module Snake.

Inductive Direction := Up | Down | Left | Right.

Inductive MoveResult :=
  | Moved (new_head old_head : Coords) (old_tail : option Coords)
  | Crashed.

Record Snake := mkSnake {
  body : list Coords;
  direction : Direction;
  grow_next_move : bool;
}.

Definition diff_of (d : Direction) : Z * Z :=
  match d with
  | Up => (0, -1)
  | Down => (0, 1)
  | Left => (-1, 0)
  | Right => (1, 0)
  end.

(** One element of [(0..size).rev().map(..).map(..)] in [Snake::new]:
    [(pos.0 as i16 - diff.0 * i, pos.1 as i16 - diff.1 * i)] cast to [u16].
    [diff * i] cannot overflow since [|diff| <= 1]. *)
Definition new_cell (pos : Coords) (diff : Z * Z) (i : Z) : option Coords :=
  x <- i16_sub (u16_as_i16 (fst pos)) (fst diff * i) ;;
  y <- i16_sub (u16_as_i16 (snd pos)) (snd diff * i) ;;
  Some (as_u16 x, as_u16 y).

Fixpoint collect_cells (pos : Coords) (diff : Z * Z) (idx : list Z) : option (list Coords) :=
  match idx with
  | [] => Some []
  | i :: idx' =>
      c <- new_cell pos diff i ;;
      cs <- collect_cells pos diff idx' ;;
      Some (c :: cs)
  end.

(** [(0..size).rev()]: [size-1, ..., 1, 0], empty when [size <= 0]. *)
Definition rev_range (size : Z) : list Z :=
  rev (map Z.of_nat (seq 0 (Z.to_nat size))).

(** [Snake::new(pos, size, direction)], [size : i16]. *)
Definition new (pos : Coords) (size : Z) (direction : Direction) : option Snake :=
  let diff := diff_of direction in
  body <- collect_cells pos diff (rev_range size) ;;
  Some (mkSnake body direction false).

(** The [new_head] computation of [move_step], in [u16]. *)
Definition next_head (old_head : Coords) (d : Direction) : option Coords :=
  match d with
  | Up => y <- u16_sub (snd old_head) 1 ;; Some (fst old_head, y)
  | Down => y <- u16_add (snd old_head) 1 ;; Some (fst old_head, y)
  | Left => x <- u16_sub (fst old_head) 1 ;; Some (x, snd old_head)
  | Right => x <- u16_add (fst old_head) 1 ;; Some (x, snd old_head)
  end.

(** The crash test of [move_step]:
    [new_head.0 == 0 || new_head.1 == 0 || new_head.0 > max_x ||
     new_head.1 > max_y || self.body()[1..].contains(&new_head)]. *)
Definition crashes (max_x max_y : Z) (body : list Coords) (new_head : Coords) : bool :=
  (fst new_head =? 0) || (snd new_head =? 0) || (max_x <? fst new_head) ||
  (max_y <? snd new_head) || contains (tl body) new_head.

(** [Snake::move_step(&mut self, max_x, max_y)]: the result and the new state. *)
Definition move_step (max_x max_y : Z) (s : Snake) : option (MoveResult * Snake) :=
  old_head <- last_opt (body s) ;;
  new_head <- next_head old_head (direction s) ;;
  if crashes max_x max_y (body s) new_head then Some (Crashed, s)
  else
    let body' := body s ++ [new_head] in
    if grow_next_move s then
      Some (Moved new_head old_head None, mkSnake body' (direction s) false)
    else
      match body' with
      | old_tail :: rest =>
          Some (Moved new_head old_head (Some old_tail), mkSnake rest (direction s) (grow_next_move s))
      | [] => None
      end.

(** The reverse pairs matched in [set_direction]. *)
Definition is_reverse (new_direction current : Direction) : bool :=
  match new_direction, current with
  | Up, Down | Down, Up | Right, Left | Left, Right => true
  | _, _ => false
  end.

Definition set_direction (s : Snake) (new_direction : Direction) : Snake :=
  if is_reverse new_direction (direction s) then s
  else mkSnake (body s) new_direction (grow_next_move s).

Definition get_direction (s : Snake) : Direction := direction s.

Definition grow (s : Snake) : Snake := mkSnake (body s) (direction s) true.

(** [head_char]: '^', 'v', '<', '>'. *)
Definition head_char (s : Snake) : Z :=
  match direction s with
  | Up => 94
  | Down => 118
  | Left => 60
  | Right => 62
  end.

End Snake.

(** ** src/term.rs *)
Module Term.

(** A Rust [char] is a Unicode scalar value, kept as its code point. *)
Definition Char : Type := Z.

Definition SPACE : Char := 32.

(** A string literal of the source, as its [char]s. *)
Definition chars (s : string) : list Char :=
  map (fun a => Z.of_nat (nat_of_ascii a)) (list_ascii_of_string s).

(** Length in bytes of the UTF-8 encoding of a [char] ([char::len_utf8]). *)
Definition utf8_len (c : Char) : Z :=
  if c <? 128 then 1 else if c <? 2048 then 2 else if c <? 65536 then 3 else 4.

(** A [&str], as its sequence of [char]s; [str::len] counts bytes. *)
Definition str_len (s : list Char) : Z := fold_right (fun c n => utf8_len c + n) 0 s.

(** [str::char_indices]: each [char] with its byte offset. *)
Fixpoint char_indices_from (off : Z) (s : list Char) : list (Z * Char) :=
  match s with
  | [] => []
  | c :: s' => (off, c) :: char_indices_from (off + utf8_len c) s'
  end.

Definition char_indices (s : list Char) : list (Z * Char) := char_indices_from 0 s.

(** [format!("{line: ^width$}")]: centre the [char]s of [line] in a field of
    [width] [char]s, the odd padding space going to the right. *)
Definition pad_center (line : list Char) (width : Z) : list Char :=
  let n := Z.of_nat (length line) in
  if width <=? n then line
  else
    let pad := width - n in
    repeat SPACE (Z.to_nat (pad / 2)) ++ line ++ repeat SPACE (Z.to_nat ((pad + 1) / 2)).

(** [iter().max().unwrap()]: panics on an empty iterator. *)
Definition max_unwrap (l : list Z) : option Z :=
  match l with
  | [] => None
  | a :: l' => Some (fold_left Z.max l' a)
  end.

(** [0..n] over [Z]. *)
Definition range (a b : Z) : list Z := map (fun k => a + Z.of_nat k) (seq 0 (Z.to_nat (b - a))).

Record Message := mkMessage {
  top_left : Coords;
  m_width : Z;
  m_height : Z;
}.

(** The terminal manager.  [device] is the content of each terminal cell
    as written through the [stdout] queue (visible after [flush]); [screen]
    is the mirror buffer, indexed by [width * y + x]. *)
Record TermManager := mkTerm {
  width : Z;
  height : Z;
  screen : list Char;
  device : Coords -> Char;
  current_msg : option Message;
}.

Definition has_message (t : TermManager) : bool :=
  match current_msg t with Some _ => true | None => false end.

Definition set_device (t : TermManager) (d : Coords -> Char) : TermManager :=
  mkTerm (width t) (height t) (screen t) d (current_msg t).

Definition set_msg (t : TermManager) (m : option Message) : TermManager :=
  mkTerm (width t) (height t) (screen t) (device t) m.

Definition dev_write (d : Coords -> Char) (pos : Coords) (ch : Char) : Coords -> Char :=
  fun p => if coords_eqb p pos then ch else d p.

(** [Vec] index assignment: panics out of range. *)
Fixpoint list_set {A} (l : list A) (n : nat) (v : A) : option (list A) :=
  match l, n with
  | [], _ => None
  | _ :: l', O => Some (v :: l')
  | a :: l', S n' => r <- list_set l' n' v ;; Some (a :: r)
  end.

(** [self.screen[self.width as usize * y as usize + x as usize]]. *)
Definition screen_index (t : TermManager) (pos : Coords) : nat :=
  Z.to_nat (width t * snd pos + fst pos).

(** [print_at_no_save]: queues [MoveTo(pos) Print(ch)], leaves [screen] alone. *)
Definition print_at_no_save (t : TermManager) (pos : Coords) (ch : Char) : TermManager :=
  set_device t (dev_write (device t) pos ch).

(** [print_at]: writes to the device and to the mirror. *)
Definition print_at (t : TermManager) (pos : Coords) (ch : Char) : option TermManager :=
  scr <- list_set (screen t) (screen_index t pos) ch ;;
  Some (mkTerm (width t) (height t) scr (dev_write (device t) pos ch) (current_msg t)).

(** [clear]: clears the device and resets the mirror to blanks. *)
Definition clear (t : TermManager) : TermManager :=
  mkTerm (width t) (height t) (repeat SPACE (Z.to_nat (width t * height t)))
         (fun _ => SPACE) (current_msg t).

(** [draw_borders(size)]: '+' corners, '-' top and bottom rows, '|' sides,
    all through [print_at]. *)
Definition PLUS : Char := 43.
Definition DASH : Char := 45.
Definition BAR : Char := 124.

(** A [for] loop whose body may panic. *)
Fixpoint for_each {A} (f : TermManager -> A -> option TermManager) (l : list A)
    (t : TermManager) : option TermManager :=
  match l with
  | [] => Some t
  | a :: l' => t' <- f t a ;; for_each f l' t'
  end.

Definition draw_borders (t : TermManager) (size : option Coords) : option TermManager :=
  let '(width, height) := match size with Some (x, y) => (x, y) | None => (width t, height t) end in
  end_x <- u16_sub width 1 ;;
  end_y <- u16_sub height 1 ;;
  t1 <- for_each (fun t x =>
                    ch <- (if x =? 0 then Some PLUS
                           else wm1 <- u16_sub width 1 ;; Some (if x =? wm1 then PLUS else DASH)) ;;
                    t' <- print_at t (x, 0) ch ;;
                    print_at t' (x, end_y) ch)
                 (range 0 width) t ;;
  hm1 <- u16_sub height 1 ;;
  for_each (fun t y => t' <- print_at t (0, y) BAR ;; print_at t' (end_x, y) BAR)
           (range 1 hm1) t1.

(** Body of the inner loop of [hide_message]. *)
Definition restore_cell (top_left : Coords) (y_diff : Z) (t : TermManager) (x_diff : Z)
    : option TermManager :=
  x <- u16_add (fst top_left) x_diff ;;
  y <- u16_add (snd top_left) y_diff ;;
  ch <- nth_error (screen t) (screen_index t (x, y)) ;;
  Some (print_at_no_save t (x, y) ch).

Definition hide_message (t : TermManager) : option TermManager :=
  match current_msg t with
  | None => Some t
  | Some msg =>
      let t0 := set_msg t None in
      for_each (fun t y_diff =>
                  for_each (restore_cell (top_left msg) y_diff) (range 0 (m_width msg)) t)
               (range 0 (m_height msg)) t0
  end.

(** Box geometry computed by [show_message]: [msg_height], [msg_width]
    (both cast [as TermInt]) and [top_left]. *)
Definition message_box (t : TermManager) (lines : list (list Char)) : option Message :=
  let msg_height := as_u16 (Z.of_nat (length lines) + 2) in
  mx <- max_unwrap (map str_len lines) ;;
  let msg_width := as_u16 (mx + 2) in
  let center := (width t / 2, height t / 2) in
  x <- u16_sub (fst center) (msg_width / 2) ;;
  y <- u16_sub (snd center) (msg_height / 2) ;;
  Some (mkMessage (x, y) msg_width msg_height).

(** Top and bottom blank rows of the box. *)
Definition blank_row (top_left : Coords) (msg_width : Z) (t : TermManager) (y : Z)
    : option TermManager :=
  for_each (fun t x_diff => x <- u16_add (fst top_left) x_diff ;;
                            Some (print_at_no_save t (x, y) SPACE))
           (range 0 msg_width) t.

(** Line [i] of the message, printed at the byte offsets of its padded text. *)
Definition print_line (top_left : Coords) (msg_width : Z) (t : TermManager)
    (il : Z * list Char) : option TermManager :=
  let '(i, line) := il in
  let padded_line := pad_center line msg_width in
  y0 <- u16_add (snd top_left) (as_u16 i) ;;
  y <- u16_add y0 1 ;;
  for_each (fun t xc => let '(x_diff, ch) := xc in
                        x <- u16_add (fst top_left) (as_u16 x_diff) ;;
                        Some (print_at_no_save t (x, y) ch))
           (char_indices padded_line) t.

Fixpoint enumerate {A} (n : Z) (l : list A) : list (Z * A) :=
  match l with
  | [] => []
  | a :: l' => (n, a) :: enumerate (n + 1) l'
  end.

Definition show_message (t : TermManager) (lines : list (list Char)) : option TermManager :=
  t1 <- (if has_message t then hide_message t else Some t) ;;
  msg <- message_box t1 lines ;;
  let tl := top_left msg in
  yb0 <- u16_add (snd tl) (m_height msg) ;;
  yb <- u16_sub yb0 1 ;;
  t2 <- for_each (blank_row tl (m_width msg)) [snd tl; yb] t1 ;;
  t3 <- for_each (print_line tl (m_width msg)) (enumerate 0 lines) t2 ;;
  Some (set_msg t3 (Some msg)).

End Term.

(** ** src/game.rs *)
Module Game.
Import Snake.

Definition TICKS_UNTIL_UPDATE : Z := 10.
Definition INITIAL_SNAKE_LENGTH : Z := 6.

(** [u64] subtraction (panics on underflow) and [u64::checked_sub]. *)
Definition u64_sub (a b : Z) : option Z := if b <=? a then Some (a - b) else None.
Definition checked_sub (a b : Z) : option Z := if b <=? a then Some (a - b) else None.

(** [snake.body().len() as u64 - INITIAL_SNAKE_LENGTH as u64]. *)
Definition score (s : Snake) : option Z :=
  u64_sub (Z.of_nat (length (body s))) INITIAL_SNAKE_LENGTH.

(** The step counter recomputed from the score (lines 101-105 of [play]). *)
Definition recompute_ticks (score : Z) : Z :=
  match checked_sub TICKS_UNTIL_UPDATE (score / 7) with
  | Some x => Z.max x 1
  | None => 1
  end.

(** [(ticks as f64 * 1.35).ceil() as u64].  The counter it is applied to is
    in [1..10]; there the double product lies within [1e-14] of [ticks * 135 / 100],
    which is never an integer, so the ceiling is the integer one. *)
Definition vertical_ticks (ticks : Z) : Z := (ticks * 135 + 99) / 100.

Definition is_vertical (d : Direction) : bool :=
  match d with Up | Down => true | Left | Right => false end.

(** Lines 100-116 of [play], run when [ticks_until_step] reaches zero:
    the score, the new [ticks_until_step], the snake after the pending
    direction change, and the cleared [dir_change]. *)
Definition step_setup (s : Snake) (dir_change : option Direction)
    : option (Z * Z * Snake * option Direction) :=
  sc <- score s ;;
  let ticks := recompute_ticks sc in
  let '(s', dir_change') :=
    match dir_change with
    | Some dir => (set_direction s dir, None)
    | None => (s, dir_change)
    end in
  let ticks' := if is_vertical (get_direction s') then vertical_ticks ticks else ticks in
  Some (sc, ticks', s', dir_change').

(** [initialize]: the arena interior, row by row
    ([for y in 1..height - 1 { for x in 1..width - 1 { .. } }]); the bound
    [width - 1] is evaluated on each pass of the outer loop. *)
Fixpoint rows_positions (w : Z) (ys : list Z) : option (list Coords) :=
  match ys with
  | [] => Some []
  | y :: ys' =>
      wm1 <- u16_sub w 1 ;;
      rest <- rows_positions w ys' ;;
      Some (map (fun x => (x, y)) (Term.range 1 wm1) ++ rest)
  end.

Definition game_positions (w h : Z) : option (list Coords) :=
  hm1 <- u16_sub h 1 ;;
  rows_positions w (Term.range 1 hm1).

(** [SliceRandom::choose]: [None] on an empty slice, otherwise the element
    at the index drawn by the generator; the draw [r] is taken modulo the
    length. *)
Definition choose {A} (l : list A) (r : nat) : option A :=
  match l with
  | [] => None
  | _ => nth_error l (r mod length l)
  end.

(** The cell chosen by [spawn_apple] (it is then drawn with [print_at]
    and flushed). *)
Definition spawn_apple (positions : list Coords) (s : Snake) (r : nat) : option Coords :=
  choose (filter (fun pos => negb (contains (body s) pos)) positions) r.

(** A sequence of calls on one snake. *)
Inductive Op := SetDirection (d : Direction) | Grow | Move.

(** Runs the calls; [None] as soon as a [move_step] does not return
    [Moved] (crash or panic). *)
Fixpoint run (max_x max_y : Z) (s : Snake) (ops : list Op) : option Snake :=
  match ops with
  | [] => Some s
  | SetDirection d :: ops' => run max_x max_y (set_direction s d) ops'
  | Grow :: ops' => run max_x max_y (grow s) ops'
  | Move :: ops' =>
      match move_step max_x max_y s with
      | Some (Moved _ _ _, s') => run max_x max_y s' ops'
      | _ => None
      end
  end.

(** [SNAKE_BODY_CHAR] is the full block U+2588 (the checked-out file shows
    its UTF-8 bytes decoded twice); [APPLE_CHAR] 'O', [DEAD_SNAKE_CHAR] 'X'. *)
Definition SNAKE_BODY_CHAR : Term.Char := 9608.
Definition APPLE_CHAR : Term.Char := 79.
Definition DEAD_SNAKE_CHAR : Term.Char := 88.

(** [print_snake]: the head glyph on the last cell, the body glyph on the
    others. *)
Definition print_snake (t : Term.TermManager) (s : Snake) : option Term.TermManager :=
  let snake_len := Z.of_nat (length (body s)) in
  Term.for_each (fun t ip => let '(i, pos) := ip in
                   let ch := if i =? snake_len - 1 then head_char s else SNAKE_BODY_CHAR in
                   Term.print_at t pos ch)
                (Term.enumerate 0 (body s)) t.

(** [print_snake_update]: head glyph at the new head, body glyph at the old
    head, blank at the vacated tail. *)
Definition print_snake_update (t : Term.TermManager) (s : Snake) (mov : MoveResult)
    : option Term.TermManager :=
  match mov with
  | Moved new_head old_head old_tail =>
      t1 <- Term.print_at t new_head (head_char s) ;;
      t2 <- Term.print_at t1 old_head SNAKE_BODY_CHAR ;;
      match old_tail with
      | Some old_tail_pos => Term.print_at t2 old_tail_pos Term.SPACE
      | None => Some t2
      end
  | Crashed => Some t
  end.

(** [u64]'s [Display]: decimal digits (a [u64] has at most 20). *)
Fixpoint digits_aux (fuel : nat) (n : Z) (acc : list Term.Char) : list Term.Char :=
  match fuel with
  | O => acc
  | S f =>
      let acc' := (48 + n mod 10) :: acc in
      if n <? 10 then acc' else digits_aux f (n / 10) acc'
  end.

Definition decimal (n : Z) : list Term.Char := digits_aux 20 n [].

(** [game_over]: a lost game marks every body cell with [DEAD_SNAKE_CHAR];
    then the final message (its third line is empty). *)
Definition game_over (t : Term.TermManager) (s : Snake) (score : Z) (win : bool)
    : option Term.TermManager :=
  let msg := if win then Term.chars "You won!" else Term.chars "Game over!" in
  t1 <- (if negb win
         then Term.for_each (fun t pos => Term.print_at t pos DEAD_SNAKE_CHAR) (body s) t
         else Some t) ;;
  Term.show_message t1 [msg; Term.chars "Score: " ++ decimal score; [];
                        Term.chars "Press any key to play again,"; Term.chars "or CTRL+C to quit."].

(** What [play] does with the result of [move_step] (the [match &move_res]):
    the game ends, or it goes on with an apple, a snake and a terminal. *)
Inductive AfterMove :=
  | GameOver (t : Term.TermManager)
  | Next (apple : Coords) (s : Snake) (t : Term.TermManager).

Definition after_move (positions : list Coords) (t : Term.TermManager) (apple : Coords)
    (score : Z) (s : Snake) (mov : MoveResult) (r : nat) : option AfterMove :=
  match mov with
  | Crashed => t' <- game_over t s score false ;; Some (GameOver t')
  | Moved new_head _ _ =>
      if coords_eqb new_head apple then
        match spawn_apple positions s r with
        | None => t' <- game_over t s score true ;; Some (GameOver t')
        | Some a =>
            t1 <- Term.print_at t a APPLE_CHAR ;;
            t2 <- print_snake_update t1 (grow s) mov ;;
            Some (Next a (grow s) t2)
        end
      else
        t2 <- print_snake_update t s mov ;;
        Some (Next apple s t2)
  end.

(** Key events as crossterm reports them; [KeyModifiers] is a bit set
    (SHIFT = 1, CONTROL = 2, ALT = 4). *)
Inductive KeyCode := KChar (c : Z) | KUp | KDown | KLeft | KRight | KEsc | KOther.

Record KeyEvent := mkKey { code : KeyCode; modifiers : Z }.

Definition CONTROL : Z := 2.

Definition is_ctrl_c (ev : KeyEvent) : bool :=
  match code ev with
  | KChar c => (c =? 99) && (modifiers ev =? CONTROL)
  | _ => false
  end.

(** The pause overlay: "Paused", "Press Esc to resume", "or Ctrl+C to quit". *)
Definition paused_lines : list (list Term.Char) :=
  [Term.chars "Paused"; Term.chars "Press Esc to resume"; Term.chars "or Ctrl+C to quit"].

Definition toggle_pause (paused : bool) (t : Term.TermManager) : option (bool * Term.TermManager) :=
  t' <- (if negb paused then Term.show_message t paused_lines else Term.hide_message t) ;;
  Some (negb paused, t').

(** The outcome of draining the key queue in one tick of [play]. *)
Inductive KeysOutcome :=
  | Quit (t : Term.TermManager)
  | Continue (dir_change : option Direction) (paused : bool) (t : Term.TermManager).

(** The [for key_ev in self.term.read_key_events_queue()] loop of [play];
    Ctrl+C leads to [clean_exit], which ends the process. *)
Fixpoint handle_keys (evs : list KeyEvent) (dir_change : option Direction) (paused : bool)
    (t : Term.TermManager) : option KeysOutcome :=
  match evs with
  | [] => Some (Continue dir_change paused t)
  | ev :: evs' =>
      if is_ctrl_c ev then Some (Quit t)
      else match code ev with
      | KChar 119 | KUp => handle_keys evs' (Some Up) paused t
      | KChar 97 | KLeft => handle_keys evs' (Some Left) paused t
      | KChar 115 | KDown => handle_keys evs' (Some Down) paused t
      | KChar 100 | KRight => handle_keys evs' (Some Right) paused t
      | KEsc =>
          pt <- toggle_pause paused t ;;
          handle_keys evs' dir_change (fst pt) (snd pt)
      | _ => handle_keys evs' dir_change paused t
      end
  end.

End Game.

(** * Properties of the snake *)
Import Snake Game.

Create HintDb snake.

Lemma last_opt_nonempty {A} (l : list A) (a : A) : last_opt l = Some a -> l <> [].
Proof. destruct l; simpl; congruence. Qed.

(** Inversion of [move_step]. *)
Lemma move_step_inv (max_x max_y : Z) (s s' : Snake) (r : MoveResult) :
  move_step max_x max_y s = Some (r, s') ->
  exists old_head new_head,
    last_opt (body s) = Some old_head /\
    next_head old_head (direction s) = Some new_head /\
    if crashes max_x max_y (body s) new_head then r = Crashed /\ s' = s
    else if grow_next_move s then
      r = Moved new_head old_head None /\
      s' = mkSnake (body s ++ [new_head]) (direction s) false
    else exists old_tail rest,
      body s = old_tail :: rest /\
      r = Moved new_head old_head (Some old_tail) /\
      s' = mkSnake (rest ++ [new_head]) (direction s) false.
Proof.
  unfold move_step.
  destruct (last_opt (body s)) as [oh|] eqn:Hl; [|discriminate].
  destruct (next_head oh (direction s)) as [nh|] eqn:Hn; [|discriminate].
  intros H; exists oh, nh; split; [auto|split; [auto|]].
  destruct (crashes max_x max_y (body s) nh); [inversion H; auto|].
  destruct (grow_next_move s) eqn:Hg; [inversion H; auto|].
  destruct (body s) as [|t rest] eqn:Hb; [discriminate|].
  simpl in H; inversion H; subst; eauto.
Qed.

(** [move_step] only panics on an empty body or an overflowing head. *)
Lemma move_step_some (max_x max_y : Z) (s : Snake) (old_head new_head : Coords) :
  last_opt (body s) = Some old_head ->
  next_head old_head (direction s) = Some new_head ->
  exists r s', move_step max_x max_y s = Some (r, s').
Proof.
  intros Hl Hn; unfold move_step; rewrite Hl, Hn.
  destruct (crashes _ _ _ _); [eauto|].
  destruct (grow_next_move s); [eauto|].
  destruct (body s ++ [new_head]) as [|t rest] eqn:E.
  - destruct (body s); discriminate.
  - eauto.
Qed.

Lemma crashes_spec (max_x max_y : Z) (b : list Coords) (nh : Coords) :
  crashes max_x max_y b nh = true <->
  (fst nh = 0 \/ snd nh = 0 \/ fst nh > max_x \/ snd nh > max_y \/ In nh (tl b)).
Proof.
  unfold crashes; rewrite !orb_true_iff, !Z.eqb_eq, !Z.ltb_lt, contains_In.
  split; intros H; repeat destruct H as [H|H]; (lia || tauto).
Qed.

(** ** C10 *)

(** C10: when [move_step] returns [Crashed] the snake is left exactly as it
    was: same body, same direction, same pending-growth flag. *)
Theorem move_step_crashed_unchanged (max_x max_y : Z) (s s' : Snake)
    (H : move_step max_x max_y s = Some (Crashed, s')) :
  body s' = body s /\ direction s' = direction s /\ grow_next_move s' = grow_next_move s.
Proof.
  apply move_step_inv in H as (oh & nh & _ & _ & H).
  destruct (crashes _ _ _ _).
  - destruct H as [_ ->]; auto.
  - destruct (grow_next_move s).
    + destruct H as [H _]; discriminate.
    + destruct H as (? & ? & _ & H & _); discriminate.
Qed.

Definition crash_example : Snake := mkSnake [(3, 5); (4, 5); (5, 5)] Right true.

Lemma move_step_crashed_unchanged_witness :
  move_step 5 10 crash_example = Some (Crashed, crash_example) /\
  body crash_example = body crash_example /\ direction crash_example = direction crash_example /\
  grow_next_move crash_example = grow_next_move crash_example.
Proof.
  split; [reflexivity|].
  apply (move_step_crashed_unchanged 5 10 crash_example crash_example).
  vm_compute; reflexivity.
Defined.

(** ** C6 *)

Lemma grow_idempotent (s : Snake) : grow (grow s) = grow s.
Proof. reflexivity. Qed.

Lemma grow_iter (n : nat) (s : Snake) : Nat.iter (S n) grow s = grow s.
Proof.
  induction n as [|n IH]; [reflexivity|].
  change (grow (Nat.iter (S n) grow s) = grow s); rewrite IH; reflexivity.
Qed.

(** C6: a successful move with no growth pending keeps the length and
    returns the removed tail (the first body cell); with growth pending
    (after one or more [grow] calls) it adds exactly one cell, returns no
    tail and clears the flag.  Any number [n+1] of [grow] calls before a
    move has the effect of a single one. *)
Theorem move_step_growth (max_x max_y : Z) (s : Snake) :
  (forall new_head old_head old_tail s',
     move_step max_x max_y s = Some (Moved new_head old_head old_tail, s') ->
     grow_next_move s' = false /\
     if grow_next_move s then
       length (body s') = S (length (body s)) /\ old_tail = None
     else
       length (body s') = length (body s) /\ old_tail <> None /\
       old_tail = hd_error (body s)) /\
  (forall n, move_step max_x max_y (Nat.iter (S n) grow s) = move_step max_x max_y (grow s)).
Proof.
  split; [|intros n; rewrite grow_iter; reflexivity].
  intros nh oh ot s' H.
  apply move_step_inv in H as (oh' & nh' & _ & _ & H).
  destruct (crashes _ _ _ _); [destruct H; discriminate|].
  destruct (grow_next_move s).
  - destruct H as [Hr ->]; inversion Hr; subst; simpl.
    rewrite length_app; simpl; split; [reflexivity|split; [lia|reflexivity]].
  - destruct H as (t & rest & Hb & Hr & ->); inversion Hr; subst; simpl.
    rewrite Hb, length_app; simpl; split; [reflexivity|split; [lia|]].
    split; [discriminate|reflexivity].
Qed.

(** ** C8 *)

(** The reverse of a direction. *)
Definition opposite (d : Direction) : Direction :=
  match d with Up => Down | Down => Up | Left => Right | Right => Left end.

Lemma is_reverse_opposite (d c : Direction) : is_reverse d c = true <-> d = opposite c.
Proof. destruct d, c; simpl; split; congruence. Qed.

(** C8: [set_direction d] leaves the snake unchanged when [d] is the reverse
    of the current direction; otherwise it stores [d] (and nothing else
    changes), and the next move offsets the head along [d]. *)
Theorem set_direction_spec (s : Snake) (d : Direction) :
  (d = opposite (direction s) -> set_direction s d = s) /\
  (d <> opposite (direction s) ->
     set_direction s d = mkSnake (body s) d (grow_next_move s) /\
     forall max_x max_y new_head old_head old_tail s',
       move_step max_x max_y (set_direction s d) = Some (Moved new_head old_head old_tail, s') ->
       last_opt (body s) = Some old_head /\ next_head old_head d = Some new_head).
Proof.
  unfold set_direction; split.
  - intros Hd; apply is_reverse_opposite in Hd; rewrite Hd; reflexivity.
  - intros Hd.
    destruct (is_reverse d (direction s)) eqn:E;
      [apply is_reverse_opposite in E; contradiction|].
    split; [reflexivity|].
    intros mx my nh oh ot s' H.
    apply move_step_inv in H as (oh' & nh' & Hl & Hn & H); simpl in *.
    destruct (crashes _ _ _ _); [destruct H; discriminate|].
    destruct (grow_next_move s).
    + destruct H as [Hr _]; inversion Hr; subst; auto.
    + destruct H as (t & rest & _ & Hr & _); inversion Hr; subst; auto.
Qed.

(** ** C1 *)

(** C1: for a snake with a head whose step along the current direction
    stays in [u16], [move_step] crashes exactly when the new head is on a
    wall ([x = 0], [y = 0], [x > max_x], [y > max_y]) or on a body cell
    other than the first (the tail); a move onto the tail's cell off the
    walls is accepted, also when growth is pending. *)
Theorem move_step_crash_iff (max_x max_y : Z) (s : Snake) (old_head new_head : Coords)
    (Hhead : last_opt (body s) = Some old_head)
    (Hstep : next_head old_head (direction s) = Some new_head) :
  ((exists s', move_step max_x max_y s = Some (Crashed, s')) <->
   (fst new_head = 0 \/ snd new_head = 0 \/ fst new_head > max_x \/
    snd new_head > max_y \/ In new_head (tl (body s)))) /\
  (hd_error (body s) = Some new_head ->
   0 < fst new_head <= max_x -> 0 < snd new_head <= max_y ->
   ~ In new_head (tl (body s)) ->
   exists old_tail s', move_step max_x max_y s = Some (Moved new_head old_head old_tail, s')).
Proof.
  split.
  - rewrite <- crashes_spec; unfold move_step; rewrite Hhead, Hstep.
    destruct (crashes _ _ _ _); split; [eauto|eauto| intros [s' H] |intros H; discriminate].
    destruct (grow_next_move s); [discriminate|].
    destruct (body s ++ [new_head]); discriminate.
  - intros _ Hx Hy Hin.
    assert (Hc : crashes max_x max_y (body s) new_head = false).
    { destruct (crashes _ _ _ _) eqn:E; [|reflexivity].
      apply crashes_spec in E; destruct E as [E|[E|[E|[E|E]]]]; [lia|lia|lia|lia|contradiction]. }
    unfold move_step; rewrite Hhead, Hstep, Hc.
    destruct (grow_next_move s); [eauto|].
    destruct (body s) as [|t rest] eqn:Hb; [discriminate|simpl; eauto].
Qed.

Definition tail_example : Snake := mkSnake [(3, 2); (4, 2); (4, 3); (3, 3)] Up true.

Lemma move_step_crash_iff_witness :
  last_opt (body tail_example) = Some (3, 3) /\
  next_head (3, 3) (direction tail_example) = Some (3, 2) /\
  exists old_tail s', move_step 10 10 tail_example = Some (Moved (3, 2) (3, 3) old_tail, s').
Proof.
  split; [reflexivity|split; [reflexivity|]].
  apply (move_step_crash_iff 10 10 tail_example (3, 3) (3, 2) eq_refl eq_refl);
    [reflexivity|simpl; lia|simpl; lia|simpl; intros [H|[H|[H|[]]]]; inversion H].
Defined.

(** ** Snake::new *)

Lemma rev_range_length (L : Z) : length (rev_range L) = Z.to_nat L.
Proof. unfold rev_range; rewrite length_rev, length_map, length_seq; reflexivity. Qed.

Lemma rev_range_nth (L : Z) (k : nat) :
  0 <= L -> (k < Z.to_nat L)%nat -> nth k (rev_range L) 0 = L - 1 - Z.of_nat k.
Proof.
  intros HL Hk; unfold rev_range.
  rewrite rev_nth by (rewrite length_map, length_seq; exact Hk).
  rewrite length_map, length_seq.
  change (nth ?m (map Z.of_nat ?l) 0) with (nth m (map Z.of_nat l) (Z.of_nat 0)).
  rewrite map_nth, seq_nth by lia; lia.
Qed.

Lemma rev_range_In (L i : Z) : In i (rev_range L) -> 0 <= i < L.
Proof.
  unfold rev_range; rewrite <- in_rev, in_map_iff.
  intros (k & <- & Hk); apply in_seq in Hk; lia.
Qed.

Lemma rev_range_snoc (L : Z) : 1 <= L -> exists r, rev_range L = r ++ [0].
Proof.
  intros HL; unfold rev_range.
  replace (Z.to_nat L) with (S (Z.to_nat L - 1)) by lia.
  simpl; eexists; reflexivity.
Qed.

Lemma rev_range_NoDup (L : Z) : NoDup (rev_range L).
Proof.
  unfold rev_range; apply NoDup_rev.
  apply (NoDup_map_NoDup_ForallPairs Z.of_nat); [|apply seq_NoDup].
  intros a b _ _ H; lia.
Qed.

Lemma i16_sub_ok (a b : Z) : -32768 <= a - b <= 32767 -> i16_sub a b = Some (a - b).
Proof.
  intros H; unfold i16_sub.
  replace ((-32768 <=? a - b) && (a - b <=? 32767)) with true; [reflexivity|].
  symmetry; apply andb_true_iff; rewrite !Z.leb_le; lia.
Qed.

Lemma u16_as_i16_small (x : Z) : x < 32768 -> u16_as_i16 x = x.
Proof. intros H; unfold u16_as_i16; rewrite (proj2 (Z.ltb_lt _ _) H); reflexivity. Qed.

Lemma collect_cells_map (pos : Coords) (diff : Z * Z) (f : Z -> Coords) (idx : list Z) :
  (forall i, In i idx -> new_cell pos diff i = Some (f i)) ->
  collect_cells pos diff idx = Some (map f idx).
Proof.
  induction idx as [|i idx IH]; intros H; simpl; [reflexivity|].
  rewrite H by (left; reflexivity).
  rewrite IH by (intros j Hj; apply H; right; exact Hj); reflexivity.
Qed.

Lemma collect_cells_Forall2 (pos : Coords) (diff : Z * Z) (idx : list Z) (cs : list Coords) :
  collect_cells pos diff idx = Some cs ->
  Forall2 (fun i c => new_cell pos diff i = Some c) idx cs.
Proof.
  revert cs; induction idx as [|i idx IH]; intros cs H; simpl in H.
  - inversion H; constructor.
  - destruct (new_cell pos diff i) eqn:E1; [|discriminate].
    destruct (collect_cells pos diff idx) eqn:E2; [|discriminate].
    inversion H; subst; constructor; auto.
Qed.

Lemma last_opt_app_single {A} (l : list A) (a : A) : last_opt (l ++ [a]) = Some a.
Proof.
  induction l as [|b l IH]; [reflexivity|].
  simpl; rewrite IH; destruct (l ++ [a]) eqn:E; [destruct l; discriminate|reflexivity].
Qed.

(** Two cells of a body differ by one step along [d], from tail to head. *)
Definition unit_steps (b : list Coords) (d : Direction) : Prop :=
  forall k, (S k < length b)%nat ->
    nth (S k) b (0, 0) = (fst (nth k b (0, 0)) + fst (diff_of d),
                          snd (nth k b (0, 0)) + snd (diff_of d)).

(** C7 (as stated): fails when the trailing cells leave the [u16] range;
    [new((0, 5), 2, Right)] wraps the tail to [x = 65535]. *)
Lemma new_trailing_cell_wraps :
  match new (0, 5) 2 Right with
  | Some s => body s = [(65535, 5); (0, 5)] /\ ~ unit_steps (body s) Right
  | None => False
  end.
Proof.
  vm_compute; split; [reflexivity|].
  intros H; specialize (H 0%nat ltac:(simpl; lia)); simpl in H; inversion H.
Qed.

(** C7 (amended): for [1 <= L <= 32767] and a start position whose
    coordinates and whose trailing cells (L-1 steps opposite to [D]) all lie
    in [0..32767], [new] builds [L] cells ending at the start position, each
    one step along [D] from the previous one. *)
Theorem new_straight_body (pos : Coords) (L : Z) (D : Direction)
    (HL : 1 <= L <= 32767)
    (Hx : 0 <= fst pos <= 32767) (Hy : 0 <= snd pos <= 32767)
    (Htx : 0 <= fst pos - fst (diff_of D) * (L - 1) <= 32767)
    (Hty : 0 <= snd pos - snd (diff_of D) * (L - 1) <= 32767) :
  exists s, new pos L D = Some s /\
    Z.of_nat (length (body s)) = L /\
    last_opt (body s) = Some pos /\
    unit_steps (body s) D /\
    direction s = D /\ grow_next_move s = false.
Proof.
  set (f := fun i => (fst pos - fst (diff_of D) * i, snd pos - snd (diff_of D) * i)).
  assert (Hc : forall i, In i (rev_range L) -> new_cell pos (diff_of D) i = Some (f i)).
  { intros i Hi; apply rev_range_In in Hi.
    unfold new_cell, f.
    rewrite !u16_as_i16_small by lia.
    rewrite !i16_sub_ok by (destruct D; cbn [diff_of fst snd] in *; lia).
    unfold as_u16; rewrite !Z.mod_small by (destruct D; cbn [diff_of fst snd] in *; lia).
    reflexivity. }
  unfold new; rewrite (collect_cells_map _ _ f _ Hc).
  eexists; split; [reflexivity|]; simpl.
  split; [rewrite length_map, rev_range_length; lia|].
  split.
  - destruct (rev_range_snoc L ltac:(lia)) as [r ->].
    rewrite map_app; simpl; rewrite last_opt_app_single.
    unfold f; rewrite !Z.mul_0_r, !Z.sub_0_r; destruct pos; reflexivity.
  - split; [|split; reflexivity].
    intros k Hk; rewrite length_map, rev_range_length in Hk.
    rewrite !(nth_indep _ (0, 0) (f 0)) by (rewrite length_map, rev_range_length; lia).
    rewrite !map_nth.
    rewrite !rev_range_nth by lia.
    unfold f; cbn [fst snd]; f_equal; rewrite Nat2Z.inj_succ; ring.
Qed.

Lemma new_straight_body_witness :
  (1 <= 6 <= 32767 /\ 0 <= 5 <= 32767 /\ 0 <= 5 <= 32767 /\
   0 <= 5 - 1 * (6 - 1) <= 32767 /\ 0 <= 5 - 0 * (6 - 1) <= 32767) /\
  exists s, new (5, 5) 6 Right = Some s /\
    Z.of_nat (length (body s)) = 6 /\ last_opt (body s) = Some (5, 5) /\
    unit_steps (body s) Right /\ direction s = Right /\ grow_next_move s = false.
Proof.
  split; [lia|].
  apply (new_straight_body (5, 5) 6 Right); simpl; lia.
Defined.

(** ** No duplicate cells *)

Lemma as_u16_inj (x y : Z) : as_u16 x = as_u16 y -> -65536 < x - y < 65536 -> x = y.
Proof.
  unfold as_u16; intros H Hb.
  pose proof (Z.div_mod x 65536 ltac:(lia)); pose proof (Z.div_mod y 65536 ltac:(lia)).
  lia.
Qed.

Lemma new_cell_inj (pos : Coords) (D : Direction) (i j : Z) (c : Coords) :
  0 <= i < 32768 -> 0 <= j < 32768 ->
  new_cell pos (diff_of D) i = Some c -> new_cell pos (diff_of D) j = Some c -> i = j.
Proof.
  intros Hi Hj; unfold new_cell, i16_sub.
  destruct (_ && _); [|discriminate].
  destruct (_ && _); [|discriminate].
  destruct (_ && _); [|discriminate].
  destruct (_ && _); [|discriminate].
  intros H1 H2; rewrite <- H2 in H1; inversion H1 as [[Ex Ey]].
  destruct D; cbn [diff_of fst snd] in *;
    [apply as_u16_inj in Ey | apply as_u16_inj in Ey
    | apply as_u16_inj in Ex | apply as_u16_inj in Ex]; lia.
Qed.

Lemma Forall2_In_r {A B} (R : A -> B -> Prop) (l : list A) (l' : list B) (b : B) :
  Forall2 R l l' -> In b l' -> exists a, In a l /\ R a b.
Proof.
  induction 1 as [|a b' l l' Hr _ IH]; [intros []|].
  intros [<-|Hb]; [exists a; split; [left|]; auto|].
  destruct (IH Hb) as (a' & Ha & Hr'); exists a'; split; [right|]; auto.
Qed.

Lemma Forall2_NoDup {A B} (R : A -> B -> Prop) (l : list A) (l' : list B) :
  Forall2 R l l' -> NoDup l ->
  (forall a1 a2 b, In a1 l -> In a2 l -> R a1 b -> R a2 b -> a1 = a2) ->
  NoDup l'.
Proof.
  induction 1 as [|a b l l' Hr H2 IH]; intros Hnd Hinj; [constructor|].
  inversion Hnd as [|? ? Hnotin Hnd']; subst.
  constructor.
  - intros Hb; destruct (Forall2_In_r R l l' b H2 Hb) as (a' & Ha' & Hr').
    assert (a = a') as <- by (apply (Hinj a a' b); [left|right| |]; auto).
    contradiction.
  - apply IH; [assumption|].
    intros a1 a2 b' H1 H3; apply Hinj; right; assumption.
Qed.

(** The body built by [new] has no duplicate cells ([size : i16]). *)
Lemma new_NoDup (pos : Coords) (size : Z) (D : Direction) (s : Snake) :
  size <= 32767 -> new pos size D = Some s -> NoDup (body s).
Proof.
  intros Hs; unfold new.
  destruct (collect_cells pos (diff_of D) (rev_range size)) as [cs|] eqn:E; [|discriminate].
  intros H; inversion H; subst; simpl.
  apply collect_cells_Forall2 in E.
  apply (Forall2_NoDup _ _ _ E (rev_range_NoDup size)).
  intros a1 a2 b H1 H2; apply rev_range_In in H1, H2.
  apply new_cell_inj; lia.
Qed.

(** A successful move keeps the body duplicate-free unless it lands on the
    current tail while growth is pending. *)
Definition grows_onto_tail (s : Snake) (new_head : Coords) : bool :=
  grow_next_move s &&
  match hd_error (body s) with Some t => coords_eqb t new_head | None => false end.

Lemma move_step_NoDup (max_x max_y : Z) (s s' : Snake) (nh oh : Coords) (ot : option Coords) :
  move_step max_x max_y s = Some (Moved nh oh ot, s') ->
  NoDup (body s) -> grows_onto_tail s nh = false -> NoDup (body s').
Proof.
  intros H Hnd Hg.
  apply move_step_inv in H as (oh' & nh' & Hl & _ & H).
  destruct (crashes _ _ _ _) eqn:Hc; [destruct H; discriminate|].
  assert (Hnin : ~ In nh' (tl (body s))).
  { intros Hin; assert (crashes max_x max_y (body s) nh' = true) by
      (apply crashes_spec; tauto); congruence. }
  unfold grows_onto_tail in Hg.
  destruct (grow_next_move s).
  - destruct H as [Hr ->]; inversion Hr; subst; simpl.
    destruct (body s) as [|t rest] eqn:Hb; [discriminate|].
    simpl in Hg, Hnin.
    apply NoDup_app; [assumption|constructor; [intros []|constructor]|].
    intros a Ha [Heq|[]]; subst a.
    destruct Ha as [Heq|Ha]; [subst t|contradiction].
    rewrite (proj2 (coords_eqb_eq nh' nh') eq_refl) in Hg; discriminate.
  - destruct H as (t & rest & Hb & Hr & ->); inversion Hr; subst; simpl.
    rewrite Hb in Hnd, Hnin; simpl in Hnin; inversion Hnd; subst.
    apply NoDup_app; [assumption|constructor; [intros []|constructor]|].
    intros a Ha [Heq|[]]; subst a; contradiction.
Qed.

(** Whether no move of the run lands on the tail while growth is pending. *)
Fixpoint no_growth_onto_tail (max_x max_y : Z) (s : Snake) (ops : list Op) : bool :=
  match ops with
  | [] => true
  | SetDirection d :: ops' => no_growth_onto_tail max_x max_y (set_direction s d) ops'
  | Grow :: ops' => no_growth_onto_tail max_x max_y (grow s) ops'
  | Move :: ops' =>
      match move_step max_x max_y s with
      | Some (Moved nh _ _, s') =>
          negb (grows_onto_tail s nh) && no_growth_onto_tail max_x max_y s' ops'
      | _ => true
      end
  end.

Lemma run_NoDup (max_x max_y : Z) (ops : list Op) (s s' : Snake) :
  run max_x max_y s ops = Some s' -> NoDup (body s) ->
  no_growth_onto_tail max_x max_y s ops = true -> NoDup (body s').
Proof.
  revert s; induction ops as [|op ops IH]; intros s Hr Hnd Hf; simpl in Hr, Hf.
  - inversion Hr; subst; assumption.
  - destruct op as [d| |].
    + apply (IH _ Hr); [|assumption].
      unfold set_direction; destruct (is_reverse _ _); assumption.
    + apply (IH _ Hr); assumption.
    + destruct (move_step max_x max_y s) as [[[nh oh ot|] s1]|] eqn:Hm; try discriminate.
      apply andb_true_iff in Hf as [Hg Hf]; apply negb_true_iff in Hg.
      apply (IH s1 Hr); [|assumption].
      apply (move_step_NoDup _ _ _ _ _ _ _ Hm Hnd Hg).
Qed.

(** The calls of the run discussed in C2: turn Down, Left, then Up onto the
    tail with growth pending. *)
Definition tail_loop_ops : list Op :=
  [SetDirection Down; Move; SetDirection Left; Move; SetDirection Up; Grow; Move].

(** C2 (as stated): fails.  From [new((4, 2), 4, Right)] inside a 10x10
    arena, three successful moves end with the tail cell [(3, 2)] twice in
    the body. *)
Lemma reachable_duplicate_cell :
  match (s0 <- new (4, 2) 4 Right ;; run 10 10 s0 tail_loop_ops) with
  | Some s => body s = [(3, 2); (4, 2); (4, 3); (3, 3); (3, 2)] /\ ~ NoDup (body s)
  | None => False
  end.
Proof.
  vm_compute; split; [reflexivity|].
  intros H; inversion H as [|? ? Hn _]; apply Hn; right; right; right; left; reflexivity.
Qed.

(** C2 (amended): a snake built by [new] and driven by [set_direction],
    [grow] and successful moves has no duplicate cells, as long as no move
    landed on the then-current tail cell while growth was pending. *)
Theorem reachable_NoDup (pos : Coords) (size : Z) (D : Direction)
    (max_x max_y : Z) (ops : list Op) (s0 s : Snake)
    (Hsize : size <= 32767)
    (Hnew : new pos size D = Some s0)
    (Hrun : run max_x max_y s0 ops = Some s)
    (Hfree : no_growth_onto_tail max_x max_y s0 ops = true) :
  NoDup (body s).
Proof.
  exact (run_NoDup _ _ _ _ _ Hrun (new_NoDup _ _ _ _ Hsize Hnew) Hfree).
Qed.

Definition square_ops : list Op :=
  [SetDirection Down; Move; SetDirection Left; Grow; Move; Move].

Lemma reachable_NoDup_witness :
  exists s0 s, new (4, 2) 4 Right = Some s0 /\ run 10 10 s0 square_ops = Some s /\
    no_growth_onto_tail 10 10 s0 square_ops = true /\ NoDup (body s).
Proof.
  do 2 eexists; split; [reflexivity|]; split; [reflexivity|]; split; [reflexivity|].
  eapply (reachable_NoDup (4, 2) 4 Right 10 10 square_ops); [lia|reflexivity|reflexivity|reflexivity].
Defined.

(** ** Step counter *)

(** C4 as the spec orders it: the vertical compensation is decided on the
    direction before the pending change, which is applied afterwards. *)
Definition step_setup_spec_order (s : Snake) (dir_change : option Direction)
    : option (Z * Z * Snake * option Direction) :=
  sc <- score s ;;
  let ticks := recompute_ticks sc in
  let ticks' := if is_vertical (get_direction s) then vertical_ticks ticks else ticks in
  let s' := match dir_change with Some dir => set_direction s dir | None => s end in
  Some (sc, ticks', s', None).

Definition start_snake : Snake := mkSnake [(3, 5); (4, 5); (5, 5); (6, 5); (7, 5); (8, 5)] Right false.

(** C4 (as stated): fails.  Moving [Right] at score 0 with a pending [Up],
    the code scales the counter (10 becomes 14) because the new direction is
    vertical, where the spec's order keeps 10. *)
Lemma vertical_scaling_uses_new_direction :
  step_setup start_snake (Some Up) = Some (0, 14, set_direction start_snake Up, None) /\
  step_setup_spec_order start_snake (Some Up) = Some (0, 10, set_direction start_snake Up, None).
Proof. split; reflexivity. Qed.

(** C4 (amended): the pending direction change is applied first (and then
    cleared); the vertical compensation is decided on the direction the snake
    has after it, the one the following [move_step] uses. *)
Theorem step_setup_order (s : Snake) (dir_change : option Direction) :
  forall sc ticks s' dir_change',
    step_setup s dir_change = Some (sc, ticks, s', dir_change') ->
    s' = match dir_change with Some dir => set_direction s dir | None => s end /\
    dir_change' = None /\
    ticks = (if is_vertical (direction s') then vertical_ticks (recompute_ticks sc)
             else recompute_ticks sc).
Proof.
  intros sc ticks s' dc' H; unfold step_setup in H.
  destruct (score s) as [sc0|]; [|discriminate].
  destruct dir_change as [d|]; inversion H; subst; auto.
Qed.

Lemma step_setup_order_witness :
  step_setup start_snake (Some Up) = Some (0, 14, set_direction start_snake Up, None) /\
  set_direction start_snake Up = set_direction start_snake Up /\ @None Direction = None /\
  14 = (if is_vertical (direction (set_direction start_snake Up))
        then vertical_ticks (recompute_ticks 0) else recompute_ticks 0).
Proof.
  split; [reflexivity|].
  apply (step_setup_order start_snake (Some Up) 0 14 (set_direction start_snake Up) None).
  reflexivity.
Defined.

Lemma recompute_ticks_max (sc : Z) :
  0 <= sc -> recompute_ticks sc = Z.max (TICKS_UNTIL_UPDATE - sc / 7) 1.
Proof.
  intros Hsc; unfold recompute_ticks, checked_sub, TICKS_UNTIL_UPDATE.
  assert (0 <= sc / 7) by (apply Z.div_pos; lia).
  destruct (sc / 7 <=? 10) eqn:E; [reflexivity|apply Z.leb_gt in E; lia].
Qed.

(** C5: the counter recomputed at a game step is
    [max(TICKS_UNTIL_UPDATE - score / 7, 1)] with [score] the body length
    minus the initial length 6 (before the vertical scaling); with the
    baseline 10 this is 10 at score 0, 9 at score 7 and 1 from score 70 on. *)
Theorem step_counter_formula (s : Snake) (dir_change : option Direction) :
  (forall sc ticks s' dir_change',
     step_setup s dir_change = Some (sc, ticks, s', dir_change') ->
     sc = Z.of_nat (length (body s)) - INITIAL_SNAKE_LENGTH /\
     recompute_ticks sc = Z.max (TICKS_UNTIL_UPDATE - sc / 7) 1 /\
     ticks = (if is_vertical (direction s') then vertical_ticks (recompute_ticks sc)
              else recompute_ticks sc)) /\
  TICKS_UNTIL_UPDATE = 10 /\ INITIAL_SNAKE_LENGTH = 6 /\
  recompute_ticks 0 = 10 /\ recompute_ticks 7 = 9 /\
  (forall sc, 70 <= sc -> recompute_ticks sc = 1).
Proof.
  split; [|split; [reflexivity|split; [reflexivity|split; [reflexivity|split; [reflexivity|]]]]].
  - intros sc ticks s' dc' H.
    pose proof (step_setup_order s dir_change sc ticks s' dc' H) as (_ & _ & Ht).
    unfold step_setup, score, u64_sub in H.
    destruct (INITIAL_SNAKE_LENGTH <=? Z.of_nat (length (body s))) eqn:E; [|discriminate].
    apply Z.leb_le in E.
    assert (Hsc : sc = Z.of_nat (length (body s)) - INITIAL_SNAKE_LENGTH)
      by (destruct dir_change; inversion H; reflexivity).
    split; [exact Hsc|split; [apply recompute_ticks_max; lia|exact Ht]].
  - intros sc Hsc; rewrite recompute_ticks_max by lia.
    assert (10 <= sc / 7) by (apply Z.div_le_lower_bound; lia).
    unfold TICKS_UNTIL_UPDATE; lia.
Qed.

(** ** Apple spawning *)


Lemma range_In (a b x : Z) : In x (Term.range a b) <-> a <= x < b.
Proof.
  unfold Term.range; rewrite in_map_iff; split.
  - intros (k & <- & Hk); apply in_seq in Hk; lia.
  - intros H; exists (Z.to_nat (x - a)); split; [lia|apply in_seq; lia].
Qed.

Lemma rows_positions_In (w : Z) (ys : list Z) (gp : list Coords) :
  rows_positions w ys = Some gp ->
  forall x y, In (x, y) gp <-> In y ys /\ 1 <= x < w - 1.
Proof.
  revert gp; induction ys as [|y0 ys IH]; intros gp H x y; simpl in H.
  - inversion H; subst; simpl; tauto.
  - unfold u16_sub in H.
    destruct (1 <=? w) eqn:Ew; [apply Z.leb_le in Ew|discriminate].
    destruct (rows_positions w ys) as [rest|] eqn:Er; [|discriminate].
    inversion H; subst gp; clear H.
    rewrite in_app_iff, in_map_iff, (IH rest eq_refl); simpl.
    split.
    + intros [(x' & Heq & Hx)|[Hy Hx]].
      * inversion Heq; subst; apply range_In in Hx; split; [left|lia]; reflexivity.
      * split; [right|]; assumption.
    + intros [[<-|Hy] Hx].
      * left; exists x; split; [reflexivity|apply range_In; lia].
      * right; split; assumption.
Qed.

Lemma game_positions_In (w h : Z) (gp : list Coords) :
  game_positions w h = Some gp ->
  forall x y, In (x, y) gp <-> 1 <= x <= w - 2 /\ 1 <= y <= h - 2.
Proof.
  unfold game_positions, u16_sub.
  destruct (1 <=? h) eqn:Eh; [apply Z.leb_le in Eh|discriminate].
  intros H x y; rewrite (rows_positions_In _ _ _ H), range_In; lia.
Qed.

Lemma choose_Some {A} (l : list A) (r : nat) (a : A) : choose l r = Some a -> In a l.
Proof.
  unfold choose; destruct l as [|b l']; [discriminate|].
  intros H; apply nth_error_In in H; exact H.
Qed.

Lemma choose_None {A} (l : list A) (r : nat) : choose l r = None <-> l = [].
Proof.
  unfold choose; destruct l as [|b l']; [split; reflexivity|].
  split; [|discriminate].
  intros H; apply nth_error_None in H.
  assert (r mod length (b :: l') < length (b :: l'))%nat by (apply Nat.mod_upper_bound; simpl; lia).
  lia.
Qed.

(** C9: on the arena of a [w] x [h] terminal, [spawn_apple] returns a cell
    of the interior ([1 <= x <= w-2], [1 <= y <= h-2]) outside the snake, and
    returns [None] exactly when every interior cell is occupied, whatever
    index the generator draws. *)
Theorem spawn_apple_spec (w h : Z) (gp : list Coords) (s : Snake) (r : nat)
    (Hgp : game_positions w h = Some gp) :
  (forall c, spawn_apple gp s r = Some c ->
     1 <= fst c <= w - 2 /\ 1 <= snd c <= h - 2 /\ ~ In c (body s)) /\
  (spawn_apple gp s r = None <->
     forall x y, 1 <= x <= w - 2 -> 1 <= y <= h - 2 -> In (x, y) (body s)).
Proof.
  split.
  - intros [x y] Hc; apply choose_Some, filter_In in Hc as [Hin Hnot].
    apply (game_positions_In _ _ _ Hgp) in Hin as [Hx Hy].
    apply negb_true_iff in Hnot.
    split; [exact Hx|split; [exact Hy|]].
    intros Hb; apply contains_In in Hb; congruence.
  - unfold spawn_apple; rewrite choose_None; split.
    + intros Hnil x y Hx Hy.
      assert (Hin : In (x, y) gp) by (apply (game_positions_In _ _ _ Hgp); lia).
      destruct (contains (body s) (x, y)) eqn:E; [apply contains_In; exact E|].
      assert (In (x, y) (filter (fun pos => negb (contains (body s) pos)) gp))
        by (apply filter_In; rewrite E; auto).
      rewrite Hnil in H; contradiction.
    + intros Hall.
      destruct (filter _ gp) as [|[x y] l] eqn:E; [reflexivity|].
      assert (Hin : In (x, y) (filter (fun pos => negb (contains (body s) pos)) gp))
        by (rewrite E; left; reflexivity).
      apply filter_In in Hin as [Hin Hnot].
      apply (game_positions_In _ _ _ Hgp) in Hin as [Hx Hy].
      apply negb_true_iff in Hnot.
      assert (Hb := Hall x y Hx Hy); apply contains_In in Hb; congruence.
Qed.

Lemma spawn_apple_spec_witness :
  exists gp, game_positions 5 4 = Some gp /\
    (forall c, spawn_apple gp start_snake 3 = Some c ->
       1 <= fst c <= 5 - 2 /\ 1 <= snd c <= 4 - 2 /\ ~ In c (body start_snake)) /\
    (spawn_apple gp start_snake 3 = None <->
       forall x y, 1 <= x <= 5 - 2 -> 1 <= y <= 4 - 2 -> In (x, y) (body start_snake)).
Proof.
  eexists; split; [reflexivity|].
  apply (spawn_apple_spec 5 4 _ start_snake 3); reflexivity.
Defined.

(** ** Message overlay *)
Section Overlay.
Import Term.

(** The mirror's character at a cell, [None] when the index is out of range. *)
Definition mirror_at (t : TermManager) (p : Coords) : option Char :=
  nth_error (screen t) (screen_index t p).

(** The device shows the mirror on every cell of the terminal. *)
Definition synced (t : TermManager) : bool :=
  forallb (fun y => forallb (fun x =>
             match mirror_at t (x, y) with
             | Some c => device t (x, y) =? c
             | None => false
             end) (range 0 (width t))) (range 0 (height t)).

Lemma synced_spec (t : TermManager) :
  synced t = true ->
  forall x y, 0 <= x < width t -> 0 <= y < height t -> mirror_at t (x, y) = Some (device t (x, y)).
Proof.
  unfold synced; intros H x y Hx Hy.
  rewrite forallb_forall in H; specialize (H y (proj2 (range_In _ _ _) Hy)).
  rewrite forallb_forall in H; specialize (H x (proj2 (range_In _ _ _) Hx)).
  destruct (mirror_at t (x, y)); [apply Z.eqb_eq in H; rewrite H; reflexivity|discriminate].
Qed.

(** [t'] differs from [t] at most in the device. *)
Definition same_mirror (t t' : TermManager) : Prop :=
  width t' = width t /\ height t' = height t /\ screen t' = screen t /\
  current_msg t' = current_msg t.

Lemma same_mirror_refl (t : TermManager) : same_mirror t t.
Proof. repeat split. Qed.

Lemma same_mirror_trans (t1 t2 t3 : TermManager) :
  same_mirror t1 t2 -> same_mirror t2 t3 -> same_mirror t1 t3.
Proof. unfold same_mirror; intuition congruence. Qed.

Lemma for_each_invariant {A} (f : TermManager -> A -> option TermManager)
    (P : TermManager -> Prop) (l : list A) (t t' : TermManager) :
  (forall a t1 t2, In a l -> f t1 a = Some t2 -> P t1 -> P t2) ->
  for_each f l t = Some t' -> P t -> P t'.
Proof.
  revert t; induction l as [|a l IH]; intros t Hf H Ht; simpl in H.
  - inversion H; subst; assumption.
  - destruct (f t a) as [t1|] eqn:E; [|discriminate].
    apply (IH t1); [intros; eapply Hf; [right| |]; eauto|assumption|].
    eapply Hf; [left; reflexivity|eassumption|assumption].
Qed.

(** Facts established by one iteration that the later ones keep. *)
Lemma for_each_establish {A} (f : TermManager -> A -> option TermManager)
    (E : A -> TermManager -> Prop) (l : list A) (t t' : TermManager) :
  (forall a b t1 t2, f t1 a = Some t2 -> E b t1 -> E b t2) ->
  (forall a t1 t2, f t1 a = Some t2 -> E a t2) ->
  for_each f l t = Some t' -> forall a, In a l -> E a t'.
Proof.
  intros Hkeep Hest; revert t; induction l as [|a l IH]; intros t H b Hb; [destruct Hb|].
  simpl in H; destruct (f t a) as [t1|] eqn:Ef; [|discriminate].
  destruct Hb as [<-|Hb]; [|exact (IH t1 H b Hb)].
  apply (for_each_invariant f (E a) l t1 t'); [|assumption|].
  - intros c t2 t3 _ Hc; apply Hkeep with (1 := Hc).
  - exact (Hest a t t1 Ef).
Qed.

Lemma for_each_some {A} (f : TermManager -> A -> option TermManager)
    (P : TermManager -> Prop) (l : list A) (t : TermManager) :
  (forall a t1, In a l -> P t1 -> exists t2, f t1 a = Some t2 /\ P t2) ->
  P t -> exists t', for_each f l t = Some t' /\ P t'.
Proof.
  revert t; induction l as [|a l IH]; intros t Hf Ht; simpl; [eauto|].
  destruct (Hf a t (or_introl eq_refl) Ht) as (t1 & -> & Ht1).
  apply IH; [intros; apply Hf; [right|]; assumption|assumption].
Qed.

Lemma print_at_no_save_mirror (t : TermManager) (p : Coords) (ch : Char) :
  same_mirror t (print_at_no_save t p ch).
Proof. repeat split. Qed.

(** A cell shows its mirror character. *)
Definition shows_mirror (t : TermManager) (p : Coords) : Prop :=
  mirror_at t p = Some (device t p).

Lemma restore_cell_spec (tl : Coords) (yd : Z) (t t' : TermManager) (xd : Z) :
  restore_cell tl yd t xd = Some t' ->
  same_mirror t t' /\ shows_mirror t' (fst tl + xd, snd tl + yd) /\
  forall p, shows_mirror t p -> shows_mirror t' p.
Proof.
  unfold restore_cell, u16_add.
  destruct (fst tl + xd <=? U16_MAX); [|discriminate].
  destruct (snd tl + yd <=? U16_MAX); [|discriminate].
  destruct (nth_error (screen t) _) as [ch|] eqn:Ech; [|discriminate].
  intros H; inversion H; subst t'; clear H.
  split; [apply print_at_no_save_mirror|].
  unfold shows_mirror, mirror_at, print_at_no_save, set_device, dev_write, screen_index; simpl.
  split.
  - rewrite (proj2 (coords_eqb_eq _ _) eq_refl); exact Ech.
  - intros p Hp.
    destruct (coords_eqb p (fst tl + xd, snd tl + yd)) eqn:E;
      [apply coords_eqb_eq in E; subst p; exact Ech|exact Hp].
Qed.

Lemma restore_row_spec (tl : Coords) (yd : Z) (xs : list Z) (t t' : TermManager) :
  for_each (restore_cell tl yd) xs t = Some t' ->
  same_mirror t t' /\
  (forall xd, In xd xs -> shows_mirror t' (fst tl + xd, snd tl + yd)) /\
  (forall p, shows_mirror t p -> shows_mirror t' p).
Proof.
  intros H; split; [|split].
  - apply (for_each_invariant (restore_cell tl yd) (same_mirror t) xs t t'); [|exact H|apply same_mirror_refl].
    intros xd t1 t2 _ Hr Ht1; apply restore_cell_spec in Hr as [Hm _].
    exact (same_mirror_trans _ _ _ Ht1 Hm).
  - apply (for_each_establish (restore_cell tl yd) (fun xd t => shows_mirror t (fst tl + xd, snd tl + yd)) xs t t'); [| |exact H].
    + intros a b t1 t2 Hr Hb; apply restore_cell_spec in Hr as (_ & _ & Hp); auto.
    + intros a t1 t2 Hr; apply restore_cell_spec in Hr as (_ & Hc & _); exact Hc.
  - intros p Hp; apply (for_each_invariant (restore_cell tl yd) (fun t => shows_mirror t p) xs t t'); [|exact H|exact Hp].
    intros xd t1 t2 _ Hr Ht1; apply restore_cell_spec in Hr as (_ & _ & Hq); auto.
Qed.

(** [hide_message] clears the record and leaves every cell of the recorded
    box showing its mirror character; the mirror is untouched. *)
Lemma hide_message_spec (t t2 : TermManager) (msg : Message) :
  current_msg t = Some msg -> hide_message t = Some t2 ->
  width t2 = width t /\ height t2 = height t /\ screen t2 = screen t /\ current_msg t2 = None /\
  forall xd yd, 0 <= xd < m_width msg -> 0 <= yd < m_height msg ->
    shows_mirror t2 (fst (top_left msg) + xd, snd (top_left msg) + yd).
Proof.
  intros Hm H; unfold hide_message in H; rewrite Hm in H.
  set (row := fun t y_diff => for_each (restore_cell (top_left msg) y_diff) (range 0 (m_width msg)) t) in H.
  assert (Hs : same_mirror (set_msg t None) t2).
  { apply (for_each_invariant row (same_mirror (set_msg t None)) (range 0 (m_height msg)) (set_msg t None) t2); [|exact H|apply same_mirror_refl].
    intros yd t1 t3 _ Hr Ht1; apply restore_row_spec in Hr as [Hr _].
    exact (same_mirror_trans _ _ _ Ht1 Hr). }
  destruct Hs as (Hw & Hh & Hsc & Hc); simpl in Hw, Hh, Hsc, Hc.
  split; [exact Hw|split; [exact Hh|split; [exact Hsc|split; [exact Hc|]]]].
  intros xd yd Hxd Hyd.
  apply (for_each_establish row
           (fun yd t => forall xd, In xd (range 0 (m_width msg)) ->
                          shows_mirror t (fst (top_left msg) + xd, snd (top_left msg) + yd))
           (range 0 (m_height msg)) (set_msg t None) t2); [| |exact H|apply range_In; lia|apply range_In; lia].
  - intros a b t1 t3 Hr Hb xd' Hxd'; apply restore_row_spec in Hr as (_ & _ & Hp); auto.
  - intros a t1 t3 Hr; apply restore_row_spec in Hr as (_ & Hc' & _); exact Hc'.
Qed.

(** [hide_message] does not panic when the box lies on the terminal. *)
Lemma hide_message_some (t : TermManager) (msg : Message) :
  current_msg t = Some msg ->
  width t <= U16_MAX -> height t <= U16_MAX ->
  0 <= fst (top_left msg) -> 0 <= snd (top_left msg) ->
  fst (top_left msg) + m_width msg <= width t ->
  snd (top_left msg) + m_height msg <= height t ->
  (forall x y, 0 <= x < width t -> 0 <= y < height t -> mirror_at t (x, y) <> None) ->
  exists t2, hide_message t = Some t2.
Proof.
  intros Hm Hw Hh Hx0 Hy0 Hx Hy Hmir; unfold hide_message; rewrite Hm.
  destruct (for_each_some
              (fun t y_diff => for_each (restore_cell (top_left msg) y_diff) (range 0 (m_width msg)) t)
              (same_mirror (set_msg t None)) (range 0 (m_height msg)) (set_msg t None))
    as (t2 & H & _); [|apply same_mirror_refl|eauto].
  intros yd t1 Hyd Ht1; apply range_In in Hyd.
  apply for_each_some; [|exact Ht1].
  intros xd t3 Hxd Ht3; apply range_In in Hxd.
  destruct Ht3 as (Hw3 & Hh3 & Hs3 & Hc3); simpl in Hw3, Hh3, Hs3, Hc3.
  unfold restore_cell, u16_add.
  rewrite (proj2 (Z.leb_le (fst (top_left msg) + xd) U16_MAX)) by lia.
  rewrite (proj2 (Z.leb_le (snd (top_left msg) + yd) U16_MAX)) by lia.
  assert (Hin := Hmir (fst (top_left msg) + xd) (snd (top_left msg) + yd) ltac:(lia) ltac:(lia)).
  assert (Hidx : screen_index t3 (fst (top_left msg) + xd, snd (top_left msg) + yd) =
                 screen_index t (fst (top_left msg) + xd, snd (top_left msg) + yd))
    by (unfold screen_index; rewrite Hw3; reflexivity).
  unfold mirror_at in Hin; rewrite Hidx, Hs3.
  destruct (nth_error (screen t) _) as [ch|] eqn:E; [|contradiction].
  eexists; split; [reflexivity|].
  repeat split; assumption.
Qed.

Lemma print_line_mirror (tl : Coords) (mw : Z) (t t' : TermManager) (il : Z * list Char) :
  print_line tl mw t il = Some t' -> same_mirror t t'.
Proof.
  destruct il as [i line]; unfold print_line.
  destruct (u16_add (snd tl) (as_u16 i)) as [y0|]; [|discriminate].
  destruct (u16_add y0 1) as [y|]; [|discriminate].
  intros H; refine (for_each_invariant _ (same_mirror t) _ t t' _ H (same_mirror_refl t)).
  intros [xd ch] t1 t2 _ Hp Ht1.
  destruct (u16_add (fst tl) (as_u16 xd)); [|discriminate].
  inversion Hp; subst; exact (same_mirror_trans _ _ _ Ht1 (print_at_no_save_mirror _ _ _)).
Qed.

Lemma blank_row_mirror (tl : Coords) (mw : Z) (t t' : TermManager) (y : Z) :
  blank_row tl mw t y = Some t' -> same_mirror t t'.
Proof.
  unfold blank_row; intros H.
  refine (for_each_invariant _ (same_mirror t) _ t t' _ H (same_mirror_refl t)).
  intros xd t1 t2 _ Hp Ht1.
  destruct (u16_add (fst tl) xd); [|discriminate].
  inversion Hp; subst; exact (same_mirror_trans _ _ _ Ht1 (print_at_no_save_mirror _ _ _)).
Qed.

(** Without an active message, [show_message] records the computed box and
    writes only to the device. *)
Lemma show_message_spec (t t1 : TermManager) (lines : list (list Char)) :
  current_msg t = None -> show_message t lines = Some t1 ->
  exists msg, message_box t lines = Some msg /\
    width t1 = width t /\ height t1 = height t /\ screen t1 = screen t /\
    current_msg t1 = Some msg.
Proof.
  intros Hm; unfold show_message, has_message; rewrite Hm.
  destruct (message_box t lines) as [msg|]; [|discriminate].
  destruct (u16_add _ _) as [yb0|]; [|discriminate].
  destruct (u16_sub yb0 1) as [yb|]; [|discriminate].
  destruct (for_each (blank_row _ _) _ t) as [t2|] eqn:E2; [|discriminate].
  destruct (for_each (print_line _ _) _ t2) as [t3|] eqn:E3; [|discriminate].
  intros H; inversion H; subst t1; clear H.
  assert (H2 : same_mirror t t2).
  { refine (for_each_invariant _ (same_mirror t) _ t t2 _ E2 (same_mirror_refl t)).
    intros y ta tb _ Hb Hta; exact (same_mirror_trans _ _ _ Hta (blank_row_mirror _ _ _ _ _ Hb)). }
  assert (H3 : same_mirror t t3).
  { refine (for_each_invariant _ (same_mirror t) _ t2 t3 _ E3 H2).
    intros il ta tb _ Hb Hta; exact (same_mirror_trans _ _ _ Hta (print_line_mirror _ _ _ _ _ Hb)). }
  destruct H3 as (Hw & Hh & Hs & _).
  exists msg; simpl; auto.
Qed.

Lemma message_box_top_left (t : TermManager) (lines : list (list Char)) (msg : Message) :
  message_box t lines = Some msg -> 0 <= fst (top_left msg) /\ 0 <= snd (top_left msg).
Proof.
  unfold message_box, u16_sub.
  destruct (max_unwrap _); [|discriminate].
  repeat match goal with
  | |- context [if ?c then _ else _] => destruct c eqn:?; [|discriminate]
  end.
  repeat match goal with H : (_ <=? _) = true |- _ => apply Z.leb_le in H end.
  intros H; inversion H; cbn [fst snd top_left] in *; lia.
Qed.

Lemma mirror_at_same (t t' : TermManager) (p : Coords) :
  width t' = width t -> screen t' = screen t -> mirror_at t' p = mirror_at t p.
Proof. intros Hw Hs; unfold mirror_at, screen_index; rewrite Hw, Hs; reflexivity. Qed.

(** C3: from a state with no active message whose device shows the mirror,
    [show_message(lines)] (for lines whose computed box lies on the terminal)
    followed by [hide_message()] succeeds, puts back on the device the
    previous content of every cell of the box, and neither call changes the
    mirror buffer. *)
Theorem show_hide_restores (t t1 : TermManager) (lines : list (list Char)) (msg : Message)
    (Hnomsg : current_msg t = None) (Hsync : synced t = true)
    (Hw : width t <= U16_MAX) (Hh : height t <= U16_MAX)
    (Hbox : message_box t lines = Some msg)
    (Hfitx : fst (top_left msg) + m_width msg <= width t)
    (Hfity : snd (top_left msg) + m_height msg <= height t)
    (Hshow : show_message t lines = Some t1) :
  screen t1 = screen t /\ current_msg t1 = Some msg /\
  exists t2, hide_message t1 = Some t2 /\ screen t2 = screen t /\ current_msg t2 = None /\
    forall x y, fst (top_left msg) <= x < fst (top_left msg) + m_width msg ->
                snd (top_left msg) <= y < snd (top_left msg) + m_height msg ->
                device t2 (x, y) = device t (x, y).
Proof.
  destruct (show_message_spec _ _ _ Hnomsg Hshow) as (msg' & Hbox' & Hw1 & Hh1 & Hs1 & Hm1).
  rewrite Hbox in Hbox'; inversion Hbox'; subst msg'; clear Hbox'.
  destruct (message_box_top_left _ _ _ Hbox) as [Hx0 Hy0].
  pose proof (synced_spec t Hsync) as Hsy.
  split; [exact Hs1|split; [exact Hm1|]].
  destruct (hide_message_some t1 msg Hm1) as [t2 Hhide];
    [lia|lia|lia|lia|lia|lia|
     intros x y Hx Hy; rewrite (mirror_at_same _ _ _ Hw1 Hs1), Hsy by lia; discriminate|].
  destruct (hide_message_spec _ _ _ Hm1 Hhide) as (Hw2 & Hh2 & Hs2 & Hm2 & Hshows).
  exists t2; split; [exact Hhide|split; [congruence|split; [exact Hm2|]]].
  intros x y Hx Hy.
  specialize (Hshows (x - fst (top_left msg)) (y - snd (top_left msg)) ltac:(lia) ltac:(lia)).
  replace (fst (top_left msg) + (x - fst (top_left msg))) with x in Hshows by lia.
  replace (snd (top_left msg) + (y - snd (top_left msg))) with y in Hshows by lia.
  unfold shows_mirror in Hshows.
  rewrite (mirror_at_same t t2) in Hshows by congruence.
  rewrite Hsy in Hshows by lia.
  inversion Hshows; reflexivity.
Qed.

End Overlay.

(** A 10x5 terminal showing dots, and the message "Hi". *)
Definition dotted_term : Term.TermManager :=
  Term.mkTerm 10 5 (repeat 46 50) (fun _ => 46) None.

Definition hi_lines : list (list Term.Char) := [[72; 105]].

Lemma show_hide_restores_witness :
  exists t1 msg, Term.show_message dotted_term hi_lines = Some t1 /\
    Term.message_box dotted_term hi_lines = Some msg /\
    Term.screen t1 = Term.screen dotted_term /\ Term.current_msg t1 = Some msg /\
    exists t2, Term.hide_message t1 = Some t2 /\ Term.screen t2 = Term.screen dotted_term /\
      Term.current_msg t2 = None /\
      forall x y, fst (Term.top_left msg) <= x < fst (Term.top_left msg) + Term.m_width msg ->
                  snd (Term.top_left msg) <= y < snd (Term.top_left msg) + Term.m_height msg ->
                  Term.device t2 (x, y) = Term.device dotted_term (x, y).
Proof.
  do 2 eexists; split; [reflexivity|split; [reflexivity|]].
  apply (show_hide_restores dotted_term _ hi_lines);
    [reflexivity|vm_compute; reflexivity|vm_compute; discriminate|vm_compute; discriminate
    |reflexivity|vm_compute; discriminate|vm_compute; discriminate|reflexivity].
Defined.

(** ** The terminal mirror: single writes, clearing and borders *)
Section Mirror.
Import Term.

Lemma list_set_spec {A} (l : list A) (n : nat) (v : A) (l' : list A) :
  list_set l n v = Some l' ->
  (n < length l)%nat /\ length l' = length l /\
  forall m, nth_error l' m = if Nat.eqb m n then Some v else nth_error l m.
Proof.
  revert n l'; induction l as [|a l IH]; intros n l' H; [discriminate|].
  destruct n as [|n]; simpl in H.
  - inversion H; subst; simpl; split; [lia|split; [reflexivity|]].
    intros [|m]; reflexivity.
  - destruct (list_set l n v) as [r|] eqn:E; [|discriminate].
    inversion H; subst; destruct (IH n r E) as (Hn & Hl & Hm).
    simpl; split; [lia|split; [congruence|]].
    intros [|m]; [reflexivity|apply Hm].
Qed.

Lemma list_set_some {A} (l : list A) (n : nat) (v : A) :
  (n < length l)%nat -> exists l', list_set l n v = Some l'.
Proof.
  revert n; induction l as [|a l IH]; intros n Hn; [simpl in Hn; lia|].
  destruct n as [|n]; simpl; [eauto|].
  destruct (IH n ltac:(simpl in Hn; lia)) as [r ->]; eauto.
Qed.


(** Row-major indices of two cells of a grid of width [w] coincide only for
    the same cell. *)
Lemma index_inj (w x1 y1 x2 y2 : Z) :
  0 <= x1 < w -> 0 <= x2 < w -> 0 <= y1 -> 0 <= y2 ->
  w * y1 + x1 = w * y2 + x2 -> x1 = x2 /\ y1 = y2.
Proof.
  intros H1 H2 H3 H4 H.
  assert (y1 = y2) by (destruct (Z.lt_trichotomy y1 y2) as [Hl|[Hl|Hl]]; [nia|exact Hl|nia]).
  subst; lia.
Qed.

(** A cell of the terminal. *)
Definition in_term (t : TermManager) (p : Coords) : Prop :=
  0 <= fst p < width t /\ 0 <= snd p < height t.

(** The mirror holds one character per cell. *)
Definition sized (t : TermManager) : Prop :=
  Z.of_nat (length (screen t)) = width t * height t.

Lemma synced_intro (t : TermManager) :
  (forall x y, 0 <= x < width t -> 0 <= y < height t -> mirror_at t (x, y) = Some (device t (x, y))) ->
  synced t = true.
Proof.
  intros H; unfold synced; apply forallb_forall; intros y Hy; apply forallb_forall; intros x Hx.
  apply range_In in Hx, Hy; rewrite (H x y Hx Hy); apply Z.eqb_refl.
Qed.

Lemma print_at_spec (t : TermManager) (p : Coords) (ch : Char) :
  sized t -> in_term t p ->
  exists t', print_at t p ch = Some t' /\
    width t' = width t /\ height t' = height t /\ current_msg t' = current_msg t /\ sized t' /\
    mirror_at t' p = Some ch /\ device t' p = ch /\
    (forall q, q <> p -> device t' q = device t q) /\
    (forall q, in_term t q -> q <> p -> mirror_at t' q = mirror_at t q).
Proof.
  destruct p as [x y]; unfold sized, in_term; cbn [fst snd]; intros Hs (Hx & Hy).
  unfold print_at.
  destruct (list_set_some (screen t) (screen_index t (x, y)) ch) as [scr Hscr].
  { unfold screen_index; cbn [fst snd]; apply Nat2Z.inj_lt; rewrite Z2Nat.id by nia; nia. }
  rewrite Hscr; destruct (list_set_spec _ _ _ _ Hscr) as (_ & Hlen & Hnth).
  eexists; split; [reflexivity|]; cbn [width height current_msg screen device].
  split; [reflexivity|split; [reflexivity|split; [reflexivity|split; [rewrite Hlen; exact Hs|]]]].
  unfold mirror_at, screen_index, dev_write; cbn [width screen device fst snd].
  split; [rewrite Hnth, Nat.eqb_refl; reflexivity|].
  split; [rewrite (proj2 (coords_eqb_eq _ _) eq_refl); reflexivity|].
  split.
  - intros q Hq; destruct (coords_eqb q (x, y)) eqn:E; [apply coords_eqb_eq in E; contradiction|reflexivity].
  - intros [qx qy] (Hqx & Hqy) Hq; unfold screen_index in Hnth; cbn [fst snd width] in *; rewrite Hnth.
    destruct (Nat.eqb _ _) eqn:E; [|reflexivity].
    assert (0 <= width t * qy) by (apply Z.mul_nonneg_nonneg; lia).
    assert (0 <= width t * y) by (apply Z.mul_nonneg_nonneg; lia).
    apply Nat.eqb_eq in E; apply Z2Nat.inj in E; try lia.
    cbn [fst snd] in E.
    destruct (index_inj (width t) qx qy x y) as [E1 E2]; try lia.
    exfalso; apply Hq; rewrite E1, E2; reflexivity.
Qed.

Lemma print_at_device (t t2 : TermManager) (q : Coords) (ch : Char) :
  print_at t q ch = Some t2 ->
  device t2 = dev_write (device t) q ch /\ width t2 = width t /\ height t2 = height t /\
  current_msg t2 = current_msg t.
Proof.
  unfold print_at; destruct (list_set _ _ _); [|discriminate].
  intros H; inversion H; subst; repeat split.
Qed.

Lemma print_at_synced (t : TermManager) (p : Coords) (ch : Char) :
  sized t -> in_term t p -> synced t = true ->
  exists t', print_at t p ch = Some t' /\ synced t' = true /\ sized t' /\
    width t' = width t /\ height t' = height t /\ current_msg t' = current_msg t /\
    mirror_at t' p = Some ch /\ device t' p = ch /\
    (forall q, q <> p -> device t' q = device t q) /\
    (forall q, in_term t q -> q <> p -> mirror_at t' q = mirror_at t q).
Proof.
  intros Hs Hp Hsync.
  destruct (print_at_spec t p ch Hs Hp) as (t' & Hpr & Hw & Hh & Hm & Hs' & Hmp & Hdp & Hd & Hmq).
  exists t'; split; [exact Hpr|split; [|repeat split; assumption]].
  apply synced_intro; intros x y Hx Hy; rewrite Hw in Hx; rewrite Hh in Hy.
  destruct (coords_eqb (x, y) p) eqn:E.
  - apply coords_eqb_eq in E; subst p; rewrite Hmp, Hdp; reflexivity.
  - assert (Hne : (x, y) <> p)
      by (intros Heq; rewrite Heq, (proj2 (coords_eqb_eq p p) eq_refl) in E; discriminate).
    assert (Hin : in_term t (x, y)) by (unfold in_term; cbn [fst snd]; lia).
    rewrite (Hmq _ Hin Hne), (Hd _ Hne).
    apply (synced_spec t Hsync); lia.
Qed.

(** [clear] blanks the device and the mirror alike. *)
Lemma clear_spec (t : TermManager) :
  0 <= width t -> 0 <= height t ->
  sized (clear t) /\ width (clear t) = width t /\ height (clear t) = height t /\
  (forall p, device (clear t) p = SPACE) /\
  (forall p, in_term t p -> mirror_at (clear t) p = Some SPACE).
Proof.
  intros Hw Hh; unfold sized, clear; cbn [width height screen device].
  split; [rewrite repeat_length; lia|split; [reflexivity|split; [reflexivity|split; [reflexivity|]]]].
  intros [x y] (Hx & Hy); cbn [fst snd] in *; unfold mirror_at, screen_index; cbn [width screen fst snd].
  apply nth_error_repeat.
  assert (0 <= width t * y) by (apply Z.mul_nonneg_nonneg; lia).
  apply Nat2Z.inj_lt; rewrite !Z2Nat.id by nia; nia.
Qed.

Lemma for_each_ext {A} (f g : TermManager -> A -> option TermManager) (l : list A) (t : TermManager) :
  (forall t1 a, In a l -> f t1 a = g t1 a) -> for_each f l t = for_each g l t.
Proof.
  revert t; induction l as [|a l IH]; intros t H; simpl; [reflexivity|].
  rewrite (H t a (or_introl eq_refl)); destruct (g t a); [|reflexivity].
  apply IH; intros; apply H; right; assumption.
Qed.

(** Facts established by one iteration that the later iterations keep. *)
Lemma for_each_establish_in {A} (f : TermManager -> A -> option TermManager)
    (E : A -> TermManager -> Prop) (l : list A) (t t' : TermManager) :
  (forall a b t1 t2, In a l -> f t1 a = Some t2 -> E b t1 -> E b t2) ->
  (forall a t1 t2, In a l -> f t1 a = Some t2 -> E a t2) ->
  for_each f l t = Some t' -> forall a, In a l -> E a t'.
Proof.
  revert t; induction l as [|a l IH]; intros t Hkeep Hest H b Hb; [destruct Hb|].
  simpl in H; destruct (f t a) as [t1|] eqn:Ef; [|discriminate].
  destruct Hb as [<-|Hb].
  - apply (for_each_invariant f (E a) l t1 t'); [|assumption|exact (Hest a t t1 (or_introl eq_refl) Ef)].
    intros c t2 t3 Hc Hf; apply (Hkeep c a t2 t3 (or_intror Hc) Hf).
  - apply (IH t1); [intros; eapply Hkeep; [right| |]; eassumption
                   |intros; eapply Hest; [right|]; eassumption|exact H|exact Hb].
Qed.

(** The picture [draw_borders] paints on a [w] x [h] terminal. *)
Definition border_char (w h : Z) (p : Coords) : Char :=
  let '(x, y) := p in
  if (y =? 0) || (y =? h - 1) then (if (x =? 0) || (x =? w - 1) then PLUS else DASH)
  else if (x =? 0) || (x =? w - 1) then BAR else SPACE.

(** Two writes of a picture [v]. *)
Definition paint2 (v : Coords -> Char) (t : TermManager) (q1 q2 : Coords) : option TermManager :=
  t' <- print_at t q1 (v q1) ;; print_at t' q2 (v q2).

Lemma paint2_device (v : Coords -> Char) (t t2 : TermManager) (q1 q2 : Coords) :
  paint2 v t q1 q2 = Some t2 ->
  width t2 = width t /\ height t2 = height t /\
  device t2 q1 = (if coords_eqb q1 q2 then v q2 else v q1) /\ device t2 q2 = v q2 /\
  forall p, p <> q1 -> p <> q2 -> device t2 p = device t p.
Proof.
  unfold paint2; destruct (print_at t q1 (v q1)) as [t1|] eqn:E1; [|discriminate].
  intros E2; apply print_at_device in E1 as (D1 & W1 & H1 & _); apply print_at_device in E2 as (D2 & W2 & H2 & _).
  rewrite D2, D1; unfold dev_write.
  rewrite (proj2 (coords_eqb_eq q2 q2) eq_refl), (proj2 (coords_eqb_eq q1 q1) eq_refl).
  split; [congruence|split; [congruence|split; [reflexivity|split; [reflexivity|]]]].
  intros p N1 N2.
  destruct (coords_eqb p q2) eqn:E; [apply coords_eqb_eq in E; contradiction|].
  destruct (coords_eqb p q1) eqn:F; [apply coords_eqb_eq in F; contradiction|reflexivity].
Qed.

Lemma paint2_keeps (v : Coords -> Char) (t t2 : TermManager) (q1 q2 p : Coords) :
  paint2 v t q1 q2 = Some t2 -> device t p = v p -> device t2 p = v p.
Proof.
  intros H Hp; destruct (paint2_device v t t2 q1 q2 H) as (_ & _ & D1 & D2 & D).
  destruct (coords_eqb p q2) eqn:E2; [apply coords_eqb_eq in E2; subst; exact D2|].
  destruct (coords_eqb p q1) eqn:E1.
  - apply coords_eqb_eq in E1; subst; rewrite D1, E2; reflexivity.
  - rewrite D; [exact Hp| |]; intros ->;
      [rewrite (proj2 (coords_eqb_eq q1 q1) eq_refl) in E1|rewrite (proj2 (coords_eqb_eq q2 q2) eq_refl) in E2];
      discriminate.
Qed.

Lemma paint2_establish (v : Coords -> Char) (t t2 : TermManager) (q1 q2 : Coords) :
  paint2 v t q1 q2 = Some t2 -> device t2 q1 = v q1 /\ device t2 q2 = v q2.
Proof.
  intros H; destruct (paint2_device v t t2 q1 q2 H) as (_ & _ & D1 & D2 & _).
  split; [|exact D2]; rewrite D1.
  destruct (coords_eqb q1 q2) eqn:E; [apply coords_eqb_eq in E; subst; reflexivity|reflexivity].
Qed.

Lemma paint2_synced (v : Coords -> Char) (t : TermManager) (q1 q2 : Coords) :
  sized t -> in_term t q1 -> in_term t q2 -> synced t = true ->
  exists t2, paint2 v t q1 q2 = Some t2 /\ synced t2 = true /\ sized t2 /\
    width t2 = width t /\ height t2 = height t /\ current_msg t2 = current_msg t.
Proof.
  intros Hs H1 H2 Hy; unfold paint2.
  destruct (print_at_synced t q1 (v q1) Hs H1 Hy) as (t1 & -> & Hy1 & Hs1 & Hw1 & Hh1 & Hm1 & _).
  assert (H2' : in_term t1 q2) by (unfold in_term in *; rewrite Hw1, Hh1; exact H2).
  destruct (print_at_synced t1 q2 (v q2) Hs1 H2' Hy1) as (t2 & -> & Hy2 & Hs2 & Hw2 & Hh2 & Hm2 & _).
  exists t2; repeat split; congruence.
Qed.

Lemma u16_sub_1 (a : Z) : 1 <= a -> u16_sub a 1 = Some (a - 1).
Proof. intros H; unfold u16_sub; rewrite (proj2 (Z.leb_le 1 a) H); reflexivity. Qed.

(** [draw_borders] as two loops of [paint2] with the border picture. *)
Lemma draw_borders_paint (t : TermManager) (w h : Z) :
  1 <= w -> 1 <= h ->
  draw_borders t (Some (w, h)) =
  (t1 <- for_each (fun t x => paint2 (border_char w h) t (x, 0) (x, h - 1)) (range 0 w) t ;;
   for_each (fun t y => paint2 (border_char w h) t (0, y) (w - 1, y)) (range 1 (h - 1)) t1).
Proof.
  intros Hw Hh; unfold draw_borders; rewrite !u16_sub_1 by lia.
  rewrite (for_each_ext _ (fun t x => paint2 (border_char w h) t (x, 0) (x, h - 1))).
  - destruct (for_each _ (range 0 w) t) as [t1|]; [|reflexivity].
    apply for_each_ext; intros t2 y Hy; apply range_In in Hy.
    unfold paint2, border_char. idtac.
    rewrite (proj2 (Z.eqb_neq y 0)), (proj2 (Z.eqb_neq y (h - 1))) by lia.
    rewrite (Z.eqb_refl (w - 1)), orb_true_r; reflexivity.
  - intros t2 x _; unfold paint2, border_char; cbn [Z.eqb orb].
    rewrite (Z.eqb_refl (h - 1)), orb_true_r.
    destruct (x =? 0); reflexivity.
Qed.

Lemma paint2_cases (v : Coords -> Char) (t t2 : TermManager) (q1 q2 p : Coords) :
  paint2 v t q1 q2 = Some t2 -> device t2 p = device t p \/ device t2 p = v p.
Proof.
  intros H; destruct (paint2_device v t t2 q1 q2 H) as (_ & _ & D1 & D2 & D).
  destruct (coords_eqb p q2) eqn:E2; [apply coords_eqb_eq in E2; subst; right; exact D2|].
  destruct (coords_eqb p q1) eqn:E1; [apply coords_eqb_eq in E1; subst; right; rewrite D1, E2; reflexivity|].
  left; apply D; intros ->;
    [rewrite (proj2 (coords_eqb_eq q1 q1) eq_refl) in E1|rewrite (proj2 (coords_eqb_eq q2 q2) eq_refl) in E2];
    discriminate.
Qed.

(** After [clear] and [draw_borders] the device and the mirror agree and show
    the border picture. *)
Lemma clear_draw_borders_spec (t : TermManager) :
  1 <= width t -> 1 <= height t ->
  exists t', draw_borders (clear t) (Some (width t, height t)) = Some t' /\
    synced t' = true /\ sized t' /\ width t' = width t /\ height t' = height t /\
    current_msg t' = current_msg t /\
    forall x y, 0 <= x < width t -> 0 <= y < height t ->
      device t' (x, y) = border_char (width t) (height t) (x, y).
Proof.
  intros Hw Hh.
  set (w := width t) in *; set (h := height t) in *; set (v := border_char w h).
  destruct (clear_spec t ltac:(lia) ltac:(lia)) as (Hs0 & Hw0 & Hh0 & Hd0 & Hm0).
  set (P := fun t' => sized t' /\ synced t' = true /\ width t' = w /\ height t' = h /\
                      current_msg t' = current_msg t).
  assert (HP0 : P (clear t)).
  { repeat split; try assumption.
    apply synced_intro; intros x y Hx Hy; rewrite Hd0; apply Hm0; unfold in_term; cbn [fst snd]; lia. }
  rewrite draw_borders_paint by lia; change (border_char w h) with v.
  destruct (for_each_some (fun t x => paint2 v t (x, 0) (x, h - 1)) P (range 0 w) (clear t))
    as (t1 & E1 & HP1); [|exact HP0|].
  { intros x ta Hx (Hs & Hy & Hwa & Hha & Hma); apply range_In in Hx.
    destruct (paint2_synced v ta (x, 0) (x, h - 1)) as (tb & Hb & Hyb & Hsb & Hwb & Hhb & Hmb);
      try assumption; try (unfold in_term; cbn [fst snd]; lia).
    exists tb; split; [exact Hb|repeat split; congruence]. }
  destruct (for_each_some (fun t y => paint2 v t (0, y) (w - 1, y)) P (range 1 (h - 1)) t1)
    as (t2 & E2 & HP2); [|exact HP1|].
  { intros y ta Hy (Hs & Hyy & Hwa & Hha & Hma); apply range_In in Hy.
    destruct (paint2_synced v ta (0, y) (w - 1, y)) as (tb & Hb & Hyb & Hsb & Hwb & Hhb & Hmb);
      try assumption; try (unfold in_term; cbn [fst snd]; lia).
    exists tb; split; [exact Hb|repeat split; congruence]. }
  rewrite E1; exists t2; split; [exact E2|].
  destruct HP2 as (Hs2 & Hy2 & Hw2 & Hh2 & Hm2).
  split; [exact Hy2|split; [exact Hs2|split; [exact Hw2|split; [exact Hh2|split; [exact Hm2|]]]]].
  (* cells painted by the first loop *)
  assert (Rows : forall x, In x (range 0 w) -> device t2 (x, 0) = v (x, 0) /\ device t2 (x, h - 1) = v (x, h - 1)).
  { intros x Hx.
    assert (H1 : device t1 (x, 0) = v (x, 0) /\ device t1 (x, h - 1) = v (x, h - 1)).
    { apply (for_each_establish_in (fun t x => paint2 v t (x, 0) (x, h - 1))
               (fun x t => device t (x, 0) = v (x, 0) /\ device t (x, h - 1) = v (x, h - 1))
               (range 0 w) (clear t) t1); [| |exact E1|exact Hx].
      - intros a b ta tb _ Hab [Hb1 Hb2]; split; eapply paint2_keeps; eassumption.
      - intros a ta tb _ Hab; exact (paint2_establish v ta tb _ _ Hab). }
    apply (for_each_invariant (fun t y => paint2 v t (0, y) (w - 1, y))
             (fun t => device t (x, 0) = v (x, 0) /\ device t (x, h - 1) = v (x, h - 1))
             (range 1 (h - 1)) t1 t2); [|exact E2|exact H1].
    intros a ta tb _ Hab [Hb1 Hb2]; split; eapply paint2_keeps; eassumption. }
  assert (Sides : forall y, In y (range 1 (h - 1)) -> device t2 (0, y) = v (0, y) /\ device t2 (w - 1, y) = v (w - 1, y)).
  { apply (for_each_establish_in (fun t y => paint2 v t (0, y) (w - 1, y))
             (fun y t => device t (0, y) = v (0, y) /\ device t (w - 1, y) = v (w - 1, y))
             (range 1 (h - 1)) t1 t2); [| |exact E2].
    - intros a b ta tb _ Hab [Hb1 Hb2]; split; eapply paint2_keeps; eassumption.
    - intros a ta tb _ Hab; exact (paint2_establish v ta tb _ _ Hab). }
  assert (Blank : forall p, device t2 p = SPACE \/ device t2 p = v p).
  { intros p.
    assert (Hq : forall ta tb (l : list Z) (f : Z -> Coords) (g : Z -> Coords),
               for_each (fun t a => paint2 v t (f a) (g a)) l ta = Some tb ->
               device ta p = SPACE \/ device ta p = v p -> device tb p = SPACE \/ device tb p = v p).
    { intros ta tb l f g E Ha.
      apply (for_each_invariant (fun t a => paint2 v t (f a) (g a))
               (fun t => device t p = SPACE \/ device t p = v p) l ta tb); [|exact E|exact Ha].
      intros a tc td _ Hcd Hc; destruct (paint2_cases v tc td (f a) (g a) p Hcd) as [->| ->]; tauto. }
    apply (Hq t1 t2 _ (fun y => (0, y)) (fun y => (w - 1, y)) E2).
    apply (Hq (clear t) t1 _ (fun x => (x, 0)) (fun x => (x, h - 1)) E1).
    left; apply Hd0. }
  intros x y Hx Hy; fold v.
  destruct (Z.eq_dec y 0) as [->|Hy0].
  { apply (Rows x); apply range_In; lia. }
  destruct (Z.eq_dec y (h - 1)) as [->|Hy1].
  { apply (Rows x); apply range_In; lia. }
  destruct (Z.eq_dec x 0) as [->|Hx0].
  { apply (Sides y); apply range_In; lia. }
  destruct (Z.eq_dec x (w - 1)) as [->|Hx1].
  { apply (Sides y); apply range_In; lia. }
  assert (Hv : v (x, y) = SPACE).
  { unfold v, border_char.
    rewrite (proj2 (Z.eqb_neq y 0)), (proj2 (Z.eqb_neq y (h - 1))),
            (proj2 (Z.eqb_neq x 0)), (proj2 (Z.eqb_neq x (w - 1))) by lia; reflexivity. }
  destruct (Blank (x, y)) as [H|H]; congruence.
Qed.

End Mirror.

Section MirrorFacts.
Import Term.

(** X1: [print_at] on a cell of the terminal succeeds, writes the character to
    that cell of both the device and the mirror, leaves every other cell of
    both alone, and so keeps a device that shows the mirror in that state. *)
Theorem print_at_in_range (t : TermManager) (p : Coords) (ch : Char)
    (Hs : sized t) (Hp : in_term t p) (Hsync : synced t = true) :
  exists t', print_at t p ch = Some t' /\ synced t' = true /\
    mirror_at t' p = Some ch /\ device t' p = ch /\
    forall q, in_term t q -> q <> p -> mirror_at t' q = mirror_at t q /\ device t' q = device t q.
Proof.
  destruct (print_at_synced t p ch Hs Hp Hsync)
    as (t' & Hpr & Hy & _ & _ & _ & _ & Hmp & Hdp & Hd & Hmq).
  exists t'; split; [exact Hpr|split; [exact Hy|split; [exact Hmp|split; [exact Hdp|]]]].
  intros q Hq Hne; split; [apply Hmq|apply Hd]; assumption.
Qed.

Lemma print_at_in_range_witness :
  sized dotted_term /\ in_term dotted_term (3, 2) /\ synced dotted_term = true /\
  exists t', print_at dotted_term (3, 2) 79 = Some t' /\ synced t' = true /\
    mirror_at t' (3, 2) = Some 79 /\ device t' (3, 2) = 79 /\
    forall q, in_term dotted_term q -> q <> (3, 2) ->
      mirror_at t' q = mirror_at dotted_term q /\ device t' q = device dotted_term q.
Proof.
  assert (Hs : sized dotted_term) by reflexivity.
  assert (Hp : in_term dotted_term (3, 2)) by (unfold in_term; simpl; lia).
  assert (Hy : synced dotted_term = true) by (vm_compute; reflexivity).
  split; [exact Hs|split; [exact Hp|split; [exact Hy|]]].
  exact (print_at_in_range dotted_term (3, 2) 79 Hs Hp Hy).
Defined.

(** X2: [print_at] does not check [x < width]: a write at [x = width] on a row
    above the last one succeeds, lands in the mirror slot of the first cell
    of the next row, and is sent to a device cell off the terminal, so that
    cell's mirror and device disagree afterwards. *)
Theorem print_at_right_edge_wraps (t : TermManager) (y : Z) (ch : Char)
    (Hs : sized t) (Hw : 0 < width t) (Hy : 0 <= y) (Hy1 : y + 1 < height t) :
  exists t', print_at t (width t, y) ch = Some t' /\
    mirror_at t' (0, y + 1) = Some ch /\ device t' (0, y + 1) = device t (0, y + 1) /\
    device t' (width t, y) = ch.
Proof.
  assert (Hi : screen_index t (width t, y) = screen_index t (0, y + 1))
    by (unfold screen_index; cbn [fst snd]; f_equal; ring).
  unfold print_at; rewrite Hi.
  destruct (list_set_some (screen t) (screen_index t (0, y + 1)) ch) as [scr Hscr].
  { unfold sized in Hs; unfold screen_index; cbn [fst snd].
    assert (0 <= width t * (y + 1)) by (apply Z.mul_nonneg_nonneg; lia).
    apply Nat2Z.inj_lt; rewrite Z2Nat.id by lia; nia. }
  rewrite Hscr; destruct (list_set_spec _ _ _ _ Hscr) as (_ & _ & Hnth).
  eexists; split; [reflexivity|].
  unfold mirror_at, dev_write; cbn [screen device width].
  split; [unfold screen_index at 1; cbn [width]; fold (screen_index t (0, y + 1)); rewrite Hnth, Nat.eqb_refl; reflexivity|].
  split.
  - unfold coords_eqb; cbn [fst snd]; rewrite (proj2 (Z.eqb_neq 0 (width t))) by lia; reflexivity.
  - rewrite (proj2 (coords_eqb_eq _ _) eq_refl); reflexivity.
Qed.

Lemma print_at_right_edge_wraps_witness :
  exists t', print_at dotted_term (10, 0) 79 = Some t' /\
    mirror_at t' (0, 1) = Some 79 /\ device t' (0, 1) = 46 /\ device t' (10, 0) = 79.
Proof.
  destruct (print_at_right_edge_wraps dotted_term 0 79) as (t' & H1 & H2 & H3 & H4);
    [reflexivity|simpl; lia|lia|simpl; lia|].
  exists t'; split; [exact H1|split; [exact H2|split; [exact H3|exact H4]]].
Defined.



(** X4: on a terminal of at least 1x1, [clear] followed by [draw_borders] with
    the terminal's own size (as [play] calls it) succeeds and leaves the
    device showing the mirror, with '+' in the four corners, '-' on the rest
    of the top and bottom rows, '|' on the rest of the first and last
    columns and blanks inside. *)
Theorem clear_draw_borders (t : TermManager) (Hw : 1 <= width t) (Hh : 1 <= height t) :
  exists t', draw_borders (clear t) (Some (width t, height t)) = Some t' /\
    synced t' = true /\ current_msg t' = current_msg t /\
    forall x y, 0 <= x < width t -> 0 <= y < height t ->
      device t' (x, y) = border_char (width t) (height t) (x, y).
Proof.
  destruct (clear_draw_borders_spec t Hw Hh) as (t' & E & Hy & _ & _ & _ & Hm & Hd).
  exists t'; split; [exact E|split; [exact Hy|split; [exact Hm|exact Hd]]].
Qed.

Lemma clear_draw_borders_witness :
  exists t', draw_borders (clear dotted_term) (Some (10, 5)) = Some t' /\
    synced t' = true /\ current_msg t' = None /\
    forall x y, 0 <= x < 10 -> 0 <= y < 5 -> device t' (x, y) = border_char 10 5 (x, y).
Proof. apply (clear_draw_borders dotted_term); simpl; lia. Defined.

End MirrorFacts.

(** ** Messages made of ASCII lines *)
Section AsciiOverlay.
Import Term.

Definition ascii_line (l : list Char) : Prop := Forall (fun c => 0 <= c < 128) l.

(** Non-empty, ASCII, and short enough for the [as TermInt] casts of
    [show_message] to keep their values. *)
Definition lines_ok (lines : list (list Char)) : Prop :=
  lines <> [] /\ Forall (fun l => ascii_line l /\ Z.of_nat (length l) <= 65533) lines /\
  Z.of_nat (length lines) <= 65533.

(** The cells of a message box. *)
Definition in_box (msg : Message) (p : Coords) : Prop :=
  fst (top_left msg) <= fst p < fst (top_left msg) + m_width msg /\
  snd (top_left msg) <= snd p < snd (top_left msg) + m_height msg.

Lemma str_len_ascii (l : list Char) : ascii_line l -> str_len l = Z.of_nat (length l).
Proof.
  induction 1 as [|c l Hc _ IH]; [reflexivity|].
  unfold str_len in *; cbn [fold_right length]; rewrite IH.
  unfold utf8_len; rewrite (proj2 (Z.ltb_lt c 128)) by lia; lia.
Qed.

Lemma char_indices_from_ascii (l : list Char) (off xd c : Z) :
  ascii_line l -> In (xd, c) (char_indices_from off l) -> off <= xd < off + Z.of_nat (length l).
Proof.
  intros Hl; revert off; induction Hl as [|c0 l Hc _ IH]; intros off H; [destruct H|].
  cbn [char_indices_from In] in H; cbn [length].
  unfold utf8_len in H; rewrite (proj2 (Z.ltb_lt c0 128)) in H by lia.
  destruct H as [H|H]; [inversion H; lia|].
  specialize (IH (off + 1) H); lia.
Qed.

Lemma pad_center_spec (line : list Char) (mw : Z) :
  ascii_line line -> Z.of_nat (length line) <= mw ->
  ascii_line (pad_center line mw) /\ Z.of_nat (length (pad_center line mw)) = mw.
Proof.
  intros Hl Hn; unfold pad_center.
  destruct (mw <=? Z.of_nat (length line)) eqn:E; [apply Z.leb_le in E; split; [exact Hl|lia]|].
  apply Z.leb_gt in E; split.
  - unfold ascii_line; rewrite !Forall_app; split; [|split; [exact Hl|]];
      apply Forall_forall; intros c Hc; apply repeat_spec in Hc; subst; unfold SPACE; lia.
  - rewrite !length_app, !repeat_length, !Nat2Z.inj_add, !Z2Nat.id; [Z.div_mod_to_equations; lia| |];
      apply Z.div_pos; lia.
Qed.

Lemma pad_center_indices (line : list Char) (mw xd c : Z) :
  ascii_line line -> Z.of_nat (length line) <= mw ->
  In (xd, c) (char_indices (pad_center line mw)) -> 0 <= xd < mw.
Proof.
  intros Hl Hn H; destruct (pad_center_spec line mw Hl Hn) as [Ha Hlen].
  apply char_indices_from_ascii in H; [lia|exact Ha].
Qed.

Lemma enumerate_In {A} (n i : Z) (a : A) (l : list A) :
  In (i, a) (enumerate n l) -> n <= i < n + Z.of_nat (length l) /\ In a l.
Proof.
  revert n; induction l as [|b l IH]; intros n H; [destruct H|].
  destruct H as [H|H]; [inversion H; subst; cbn [length In]; split; [lia|left; reflexivity]|].
  destruct (IH (n + 1) H) as [Hi Ha]; cbn [length In]; split; [lia|right; exact Ha].
Qed.

Lemma fold_max_spec (l : list Z) (a : Z) :
  a <= fold_left Z.max l a /\ (forall b, In b l -> b <= fold_left Z.max l a) /\
  In (fold_left Z.max l a) (a :: l).
Proof.
  revert a; induction l as [|b l IH]; intros a; cbn [fold_left In].
  - split; [lia|split; [intros _ []|left; reflexivity]].
  - destruct (IH (Z.max a b)) as (H1 & H2 & H3).
    split; [lia|split; [intros c [<-|Hc]; [lia|apply H2, Hc]|]].
    destruct H3 as [H3|H3]; [|right; right; exact H3].
    destruct (Z.max_spec a b) as [[_ Hm]|[_ Hm]]; rewrite Hm in *; tauto.
Qed.

(** The box of a message of ASCII lines: two rows more than lines, two
    columns more than the longest line. *)
Lemma message_box_ascii (t : TermManager) (lines : list (list Char)) (msg : Message) :
  lines_ok lines -> message_box t lines = Some msg ->
  m_height msg = Z.of_nat (length lines) + 2 /\
  (forall l, In l lines -> Z.of_nat (length l) + 2 <= m_width msg) /\
  2 <= m_width msg <= 65535 /\ 0 <= fst (top_left msg) /\ 0 <= snd (top_left msg).
Proof.
  intros (Hne & Hl & Hlen) Hbox.
  destruct (message_box_top_left _ _ _ Hbox) as [Hx Hy].
  unfold message_box in Hbox.
  destruct (max_unwrap (map str_len lines)) as [mx|] eqn:Emx; [|discriminate].
  destruct (u16_sub _ _); [|discriminate]; destruct (u16_sub _ _); [|discriminate].
  inversion Hbox; subst msg; clear Hbox; cbn [m_height m_width top_left fst snd] in *.
  assert (Hmx : (forall l, In l lines -> Z.of_nat (length l) <= mx) /\ 0 <= mx <= 65533).
  { destruct lines as [|l0 ls]; [contradiction|].
    cbn [map max_unwrap] in Emx; inversion Emx; subst mx.
    destruct (fold_max_spec (map str_len ls) (str_len l0)) as (H1 & H2 & H3).
    assert (Hs : forall l, In l (l0 :: ls) -> str_len l = Z.of_nat (length l))
      by (intros l Hl'; apply str_len_ascii; rewrite Forall_forall in Hl; apply (Hl l Hl')).
    assert (Hb : forall l, In l (l0 :: ls) -> Z.of_nat (length l) <= 65533)
      by (intros l Hl'; rewrite Forall_forall in Hl; apply (Hl l Hl')).
    split.
    - intros l [<-|Hl']; [rewrite <- Hs by (left; reflexivity); exact H1|].
      rewrite <- Hs by (right; exact Hl'); apply H2, in_map, Hl'.
    - destruct H3 as [<-|H3].
      + rewrite Hs by (left; reflexivity); split; [lia|apply Hb; left; reflexivity].
      + apply in_map_iff in H3 as (l & <- & Hl'); rewrite Hs by (right; exact Hl').
        split; [lia|apply Hb; right; exact Hl']. }
  destruct Hmx as [Hmx1 Hmx2]; unfold as_u16.
  rewrite (Z.mod_small (mx + 2)), (Z.mod_small (Z.of_nat (length lines) + 2)) by lia.
  split; [reflexivity|split; [intros l Hl'; specialize (Hmx1 l Hl'); lia|split; [lia|split; assumption]]].
Qed.

Lemma no_save_outside (msg : Message) (t : TermManager) (q p : Coords) (c : Char) :
  in_box msg q -> ~ in_box msg p -> device (print_at_no_save t q c) p = device t p.
Proof.
  intros Hq Hp; unfold print_at_no_save, set_device, dev_write; cbn [device].
  destruct (coords_eqb p q) eqn:E; [apply coords_eqb_eq in E; subst; contradiction|reflexivity].
Qed.

(** Without an active message, [show_message] of ASCII lines writes only to
    the cells of its box. *)
Lemma show_message_outside (t t1 : TermManager) (lines : list (list Char)) :
  current_msg t = None -> lines_ok lines -> show_message t lines = Some t1 ->
  exists msg, message_box t lines = Some msg /\ current_msg t1 = Some msg /\
    width t1 = width t /\ height t1 = height t /\ screen t1 = screen t /\
    forall p, ~ in_box msg p -> device t1 p = device t p.
Proof.
  intros Hm Hok H.
  destruct (show_message_spec t t1 lines Hm H) as (msg & Hbox & Hw1 & Hh1 & Hs1 & Hm1).
  exists msg; split; [exact Hbox|split; [exact Hm1|split; [exact Hw1|split; [exact Hh1|split; [exact Hs1|]]]]].
  intros p Hp.
  destruct (message_box_ascii t lines msg Hok Hbox) as (Hmh & Hmw & Hwb & Htlx & Htly).
  unfold show_message, has_message in H; rewrite Hm, Hbox in H.
  unfold u16_add, u16_sub in H.
  destruct (snd (top_left msg) + m_height msg <=? U16_MAX); [|discriminate].
  destruct (1 <=? _) eqn:Eyb; [|discriminate]; apply Z.leb_le in Eyb.
  destruct (for_each (blank_row _ _) _ t) as [t2|] eqn:E2; [|discriminate].
  destruct (for_each (print_line _ _) _ t2) as [t3|] eqn:E3; [|discriminate].
  inversion H; subst t1; clear H; cbn [device set_msg].
  assert (H2 : device t2 p = device t p).
  { refine (for_each_invariant _ (fun t' => device t' p = device t p) _ t t2 _ E2 eq_refl).
    intros y ta tb Hy Hab Ha.
    assert (Hy' : snd (top_left msg) <= y < snd (top_left msg) + m_height msg)
      by (destruct Hy as [<-|[<-|[]]]; lia).
    unfold blank_row in Hab.
    refine (for_each_invariant _ (fun t' => device t' p = device t p) _ ta tb _ Hab Ha).
    intros xd tc td Hxd Hcd Hc; apply range_In in Hxd.
    unfold u16_add in Hcd; destruct (_ <=? U16_MAX); [|discriminate].
    inversion Hcd; subst td; rewrite no_save_outside with (msg := msg); [exact Hc| |exact Hp].
    unfold in_box; cbn [fst snd]; lia. }
  refine (for_each_invariant _ (fun t' => device t' p = device t p) _ t2 t3 _ E3 H2).
  intros [i line] ta tb Hil Hab Ha.
  destruct (enumerate_In 0 i line lines Hil) as [Hi Hl].
  assert (Hline : ascii_line line /\ Z.of_nat (length line) <= 65533)
    by (destruct Hok as (_ & Hf & _); rewrite Forall_forall in Hf; exact (Hf line Hl)).
  specialize (Hmw line Hl).
  unfold print_line in Hab; unfold u16_add in Hab.
  destruct (snd (top_left msg) + as_u16 i <=? U16_MAX); [|discriminate].
  destruct (snd (top_left msg) + as_u16 i + 1 <=? U16_MAX); [|discriminate].
  assert (Hai : as_u16 i = i) by (unfold as_u16; apply Z.mod_small; destruct Hok as (_ & _ & Hn); lia).
  refine (for_each_invariant _ (fun t' => device t' p = device t p) _ ta tb _ Hab Ha).
  intros [xd c] tc td Hxd Hcd Hc.
  apply pad_center_indices in Hxd; [|apply Hline|lia].
  assert (Hax : as_u16 xd = xd) by (unfold as_u16; apply Z.mod_small; lia).
  destruct (_ <=? U16_MAX); [|discriminate].
  inversion Hcd; subst td; rewrite no_save_outside with (msg := msg); [exact Hc| |exact Hp].
  unfold in_box; cbn [fst snd]; rewrite Hai, Hax; lia.
Qed.

(** [hide_message] writes only to the cells of the recorded box. *)
Lemma hide_message_outside (t t2 : TermManager) (msg : Message) :
  current_msg t = Some msg -> hide_message t = Some t2 ->
  forall p, ~ in_box msg p -> device t2 p = device t p.
Proof.
  intros Hm H p Hp; unfold hide_message in H; rewrite Hm in H.
  refine (for_each_invariant _ (fun t' => device t' p = device t p) _ (set_msg t None) t2 _ H eq_refl).
  intros yd ta tb Hyd Hab Ha; apply range_In in Hyd.
  refine (for_each_invariant _ (fun t' => device t' p = device t p) _ ta tb _ Hab Ha).
  intros xd tc td Hxd Hcd Hc; apply range_In in Hxd.
  unfold restore_cell, u16_add in Hcd.
  destruct (fst (top_left msg) + xd <=? U16_MAX); [|discriminate].
  destruct (snd (top_left msg) + yd <=? U16_MAX); [|discriminate].
  destruct (nth_error _ _); [|discriminate].
  inversion Hcd; subst td; rewrite no_save_outside with (msg := msg); [exact Hc| |exact Hp].
  unfold in_box; cbn [fst snd]; lia.
Qed.

(** [show_message] of ASCII lines whose box lies on the terminal does not
    panic. *)
Lemma show_message_ascii_some (t : TermManager) (lines : list (list Char)) (msg : Message) :
  current_msg t = None -> lines_ok lines -> message_box t lines = Some msg ->
  width t <= U16_MAX -> height t <= U16_MAX ->
  fst (top_left msg) + m_width msg <= width t -> snd (top_left msg) + m_height msg <= height t ->
  exists t1, show_message t lines = Some t1.
Proof.
  intros Hm Hok Hbox Hw Hh Hfx Hfy.
  destruct (message_box_ascii t lines msg Hok Hbox) as (Hmh & Hmw & Hwb & Htlx & Htly).
  unfold show_message, has_message; rewrite Hm, Hbox.
  unfold u16_add at 1, u16_sub.
  rewrite (proj2 (Z.leb_le _ U16_MAX)) by lia; rewrite (proj2 (Z.leb_le 1 _)) by lia.
  destruct (for_each_some (blank_row (top_left msg) (m_width msg)) (fun _ => True)
              [snd (top_left msg); snd (top_left msg) + m_height msg - 1] t) as (t2 & -> & _);
    [|exact I|].
  { intros y ta _ _; unfold blank_row.
    apply for_each_some; [|exact I].
    intros xd tb Hxd _; apply range_In in Hxd; unfold u16_add.
    rewrite (proj2 (Z.leb_le _ U16_MAX)) by lia; eauto. }
  destruct (for_each_some (print_line (top_left msg) (m_width msg)) (fun _ => True)
              (enumerate 0 lines) t2) as (t3 & -> & _); [|exact I|eauto].
  intros [i line] ta Hil _.
  destruct (enumerate_In 0 i line lines Hil) as [Hi Hl].
  assert (Hline : ascii_line line /\ Z.of_nat (length line) <= 65533)
    by (destruct Hok as (_ & Hf & _); rewrite Forall_forall in Hf; exact (Hf line Hl)).
  specialize (Hmw line Hl).
  assert (Hai : as_u16 i = i) by (unfold as_u16; apply Z.mod_small; destruct Hok as (_ & _ & Hn); lia).
  unfold print_line, u16_add; rewrite Hai.
  rewrite (proj2 (Z.leb_le _ U16_MAX)) by lia; rewrite (proj2 (Z.leb_le _ U16_MAX)) by lia.
  apply for_each_some; [|exact I].
  intros [xd c] tb Hxd _.
  apply pad_center_indices in Hxd; [|apply Hline|lia].
  assert (Hax : as_u16 xd = xd) by (unfold as_u16; apply Z.mod_small; lia).
  rewrite Hax, (proj2 (Z.leb_le _ U16_MAX)) by lia; eauto.
Qed.

(** Showing a message of ASCII lines and hiding it again gives back the
    whole device, the mirror and the record of the state it started from. *)
Lemma ascii_round_trip (t : TermManager) (lines : list (list Char)) (msg : Message) :
  current_msg t = None -> synced t = true -> width t <= U16_MAX -> height t <= U16_MAX ->
  lines_ok lines -> message_box t lines = Some msg ->
  fst (top_left msg) + m_width msg <= width t -> snd (top_left msg) + m_height msg <= height t ->
  exists t1 t2, show_message t lines = Some t1 /\ current_msg t1 = Some msg /\
    (forall p, ~ in_box msg p -> device t1 p = device t p) /\
    hide_message t1 = Some t2 /\ width t2 = width t /\ height t2 = height t /\
    screen t2 = screen t /\ current_msg t2 = None /\ forall p, device t2 p = device t p.
Proof.
  intros Hm Hsync Hw Hh Hok Hbox Hfx Hfy.
  destruct (message_box_ascii t lines msg Hok Hbox) as (Hmh & Hmw & Hwb & Htlx & Htly).
  destruct (show_message_ascii_some t lines msg Hm Hok Hbox Hw Hh Hfx Hfy) as [t1 Hshow].
  destruct (show_message_outside t t1 lines Hm Hok Hshow) as (msg' & Hbox' & Hm1 & Hw1 & Hh1 & Hs1 & Hout1).
  rewrite Hbox in Hbox'; inversion Hbox'; subst msg'; clear Hbox'.
  pose proof (synced_spec t Hsync) as Hsy.
  destruct (hide_message_some t1 msg Hm1) as [t2 Hhide];
    [lia|lia|lia|lia|lia|lia|
     intros x y Hx Hy; rewrite (mirror_at_same _ _ _ Hw1 Hs1), Hsy by lia; discriminate|].
  destruct (hide_message_spec _ _ _ Hm1 Hhide) as (Hw2 & Hh2 & Hs2 & Hm2 & Hshows).
  exists t1, t2; split; [exact Hshow|split; [exact Hm1|split; [exact Hout1|split; [exact Hhide|]]]].
  split; [congruence|split; [congruence|split; [congruence|split; [exact Hm2|]]]].
  intros [x y].
  assert (Hdec : in_box msg (x, y) \/ ~ in_box msg (x, y)) by (unfold in_box; cbn [fst snd]; lia).
  destruct Hdec as [Hin|Hout].
  - unfold in_box in Hin; cbn [fst snd] in Hin.
    specialize (Hshows (x - fst (top_left msg)) (y - snd (top_left msg)) ltac:(lia) ltac:(lia)).
    replace (fst (top_left msg) + (x - fst (top_left msg))) with x in Hshows by lia.
    replace (snd (top_left msg) + (y - snd (top_left msg))) with y in Hshows by lia.
    unfold shows_mirror in Hshows.
    rewrite (mirror_at_same t t2) in Hshows by congruence.
    rewrite Hsy in Hshows by lia.
    inversion Hshows; reflexivity.
  - rewrite (hide_message_outside t1 t2 msg Hm1 Hhide _ Hout); exact (Hout1 _ Hout).
Qed.

(** With a message on screen, [show_message] first hides it. *)
Lemma show_message_active (t : TermManager) (lines : list (list Char)) (m : Message) :
  current_msg t = Some m ->
  show_message t lines = (t' <- hide_message t ;; show_message t' lines).
Proof.
  intros Hm; unfold show_message at 1; unfold has_message; rewrite Hm.
  destruct (hide_message t) as [t'|] eqn:E; [|reflexivity].
  destruct (hide_message_spec t t' m Hm E) as (_ & _ & _ & Hm' & _).
  unfold show_message, has_message; rewrite Hm'; reflexivity.
Qed.

Lemma message_box_same (t t' : TermManager) (lines : list (list Char)) :
  width t' = width t -> height t' = height t -> message_box t' lines = message_box t lines.
Proof. intros Hw Hh; unfold message_box; rewrite Hw, Hh; reflexivity. Qed.

Lemma forallb_pointwise {A} (f g : A -> bool) (l : list A) :
  (forall a, f a = g a) -> forallb f l = forallb g l.
Proof. intros H; induction l as [|a l IH]; simpl; [reflexivity|rewrite H, IH; reflexivity]. Qed.

Lemma synced_same (t t' : TermManager) :
  width t' = width t -> height t' = height t -> screen t' = screen t ->
  (forall p, device t' p = device t p) -> synced t' = synced t.
Proof.
  intros Hw Hh Hs Hd; unfold synced; rewrite Hw, Hh.
  apply forallb_pointwise; intros y; apply forallb_pointwise; intros x.
  rewrite Hd, (mirror_at_same t t') by assumption; reflexivity.
Qed.

End AsciiOverlay.

Section AsciiOverlayFacts.
Import Term.

(** X5: with no message on screen, [show_message] of ASCII lines whose box
    lies on the terminal succeeds, records the box, leaves the mirror alone
    and changes no device cell outside the box. *)
Theorem show_message_ascii_in_box (t : TermManager) (lines : list (list Char)) (msg : Message)
    (Hm : current_msg t = None) (Hok : lines_ok lines) (Hbox : message_box t lines = Some msg)
    (Hw : width t <= U16_MAX) (Hh : height t <= U16_MAX)
    (Hfx : fst (top_left msg) + m_width msg <= width t)
    (Hfy : snd (top_left msg) + m_height msg <= height t) :
  exists t1, show_message t lines = Some t1 /\ current_msg t1 = Some msg /\ screen t1 = screen t /\
    forall p, ~ in_box msg p -> device t1 p = device t p.
Proof.
  destruct (show_message_ascii_some t lines msg Hm Hok Hbox Hw Hh Hfx Hfy) as [t1 Hshow].
  destruct (show_message_outside t t1 lines Hm Hok Hshow) as (msg' & Hbox' & Hm1 & _ & _ & Hs1 & Hout).
  rewrite Hbox in Hbox'; inversion Hbox'; subst msg'.
  exists t1; split; [exact Hshow|split; [exact Hm1|split; [exact Hs1|exact Hout]]].
Qed.

(** X6: from a state with no message whose device shows the mirror,
    [show_message] of ASCII lines (box on the terminal) followed by
    [hide_message] gives back every device cell, on and off the box, and the
    mirror. *)
Theorem show_hide_ascii_whole_device (t : TermManager) (lines : list (list Char)) (msg : Message)
    (Hm : current_msg t = None) (Hsync : synced t = true)
    (Hw : width t <= U16_MAX) (Hh : height t <= U16_MAX)
    (Hok : lines_ok lines) (Hbox : message_box t lines = Some msg)
    (Hfx : fst (top_left msg) + m_width msg <= width t)
    (Hfy : snd (top_left msg) + m_height msg <= height t) :
  exists t1 t2, show_message t lines = Some t1 /\ hide_message t1 = Some t2 /\
    screen t2 = screen t /\ current_msg t2 = None /\ forall p, device t2 p = device t p.
Proof.
  destruct (ascii_round_trip t lines msg Hm Hsync Hw Hh Hok Hbox Hfx Hfy)
    as (t1 & t2 & Hs & _ & _ & Hhide & _ & _ & Hsc & Hm2 & Hd).
  exists t1, t2; repeat (split; [eassumption|]); exact Hd.
Qed.

(** X7: showing a second ASCII message over a first one and then hiding
    gives back the device the first message was shown on: the second
    [show_message] first hides the first box. *)
Theorem show_show_hide_restores (t : TermManager) (l1 l2 : list (list Char)) (msg1 msg2 : Message)
    (Hm : current_msg t = None) (Hsync : synced t = true)
    (Hw : width t <= U16_MAX) (Hh : height t <= U16_MAX)
    (Hok1 : lines_ok l1) (Hbox1 : message_box t l1 = Some msg1)
    (Hfx1 : fst (top_left msg1) + m_width msg1 <= width t)
    (Hfy1 : snd (top_left msg1) + m_height msg1 <= height t)
    (Hok2 : lines_ok l2) (Hbox2 : message_box t l2 = Some msg2)
    (Hfx2 : fst (top_left msg2) + m_width msg2 <= width t)
    (Hfy2 : snd (top_left msg2) + m_height msg2 <= height t) :
  exists t1 t2 t3, show_message t l1 = Some t1 /\ show_message t1 l2 = Some t2 /\
    current_msg t2 = Some msg2 /\ hide_message t2 = Some t3 /\
    screen t3 = screen t /\ current_msg t3 = None /\ forall p, device t3 p = device t p.
Proof.
  destruct (ascii_round_trip t l1 msg1 Hm Hsync Hw Hh Hok1 Hbox1 Hfx1 Hfy1)
    as (t1 & u & Hs1 & Hm1 & _ & Hhu & Hwu & Hhgt & Hsu & Hmu & Hdu).
  assert (Hsyu : synced u = true) by (rewrite (synced_same t u); assumption).
  assert (Hboxu : message_box u l2 = Some msg2) by (rewrite (message_box_same t u); assumption).
  destruct (ascii_round_trip u l2 msg2 Hmu Hsyu ltac:(lia) ltac:(lia) Hok2 Hboxu
              ltac:(lia) ltac:(lia))
    as (t2 & t3 & Hs2 & Hm2 & _ & Hh3 & _ & _ & Hs3 & Hm3 & Hd3).
  exists t1, t2, t3.
  split; [exact Hs1|split; [rewrite (show_message_active t1 l2 msg1 Hm1), Hhu; exact Hs2|]].
  split; [exact Hm2|split; [exact Hh3|split; [congruence|split; [exact Hm3|]]]].
  intros p; rewrite Hd3; apply Hdu.
Qed.

Lemma lines_ok_hi : lines_ok hi_lines.
Proof. split; [discriminate|split; [repeat constructor; simpl; lia|simpl; lia]]. Qed.

(** "OK" over "!". *)
Definition ok_lines : list (list Char) := [[79; 75]; [33]].

Lemma lines_ok_ok : lines_ok ok_lines.
Proof. split; [discriminate|split; [repeat constructor; simpl; lia|simpl; lia]]. Qed.

Lemma show_message_ascii_in_box_witness :
  exists t1, show_message dotted_term hi_lines = Some t1 /\
    current_msg t1 = Some (mkMessage (3, 1) 4 3) /\ screen t1 = screen dotted_term /\
    forall p, ~ in_box (mkMessage (3, 1) 4 3) p -> device t1 p = device dotted_term p.
Proof.
  apply (show_message_ascii_in_box dotted_term hi_lines (mkMessage (3, 1) 4 3));
    [reflexivity|exact lines_ok_hi|reflexivity|unfold U16_MAX; simpl; lia|unfold U16_MAX; simpl; lia|unfold U16_MAX; simpl; lia|unfold U16_MAX; simpl; lia].
Defined.

Lemma show_hide_ascii_whole_device_witness :
  exists t1 t2, show_message dotted_term hi_lines = Some t1 /\ hide_message t1 = Some t2 /\
    screen t2 = screen dotted_term /\ current_msg t2 = None /\
    forall p, device t2 p = device dotted_term p.
Proof.
  apply (show_hide_ascii_whole_device dotted_term hi_lines (mkMessage (3, 1) 4 3));
    [reflexivity|vm_compute; reflexivity|unfold U16_MAX; simpl; lia|unfold U16_MAX; simpl; lia|exact lines_ok_hi|reflexivity
    |unfold U16_MAX; simpl; lia|unfold U16_MAX; simpl; lia].
Defined.

Lemma show_show_hide_restores_witness :
  exists t1 t2 t3, show_message dotted_term hi_lines = Some t1 /\ show_message t1 ok_lines = Some t2 /\
    current_msg t2 = Some (mkMessage (3, 0) 4 4) /\ hide_message t2 = Some t3 /\
    screen t3 = screen dotted_term /\ current_msg t3 = None /\
    forall p, device t3 p = device dotted_term p.
Proof.
  apply (show_show_hide_restores dotted_term hi_lines ok_lines (mkMessage (3, 1) 4 3) (mkMessage (3, 0) 4 4));
    [reflexivity|vm_compute; reflexivity|unfold U16_MAX; simpl; lia|unfold U16_MAX; simpl; lia
    |exact lines_ok_hi|reflexivity|unfold U16_MAX; simpl; lia|unfold U16_MAX; simpl; lia
    |exact lines_ok_ok|reflexivity|unfold U16_MAX; simpl; lia|unfold U16_MAX; simpl; lia].
Defined.

End AsciiOverlayFacts.

(** ** Runs of the snake: length and arena *)

Lemma last_opt_In {A} (l : list A) (a : A) : last_opt l = Some a -> In a l.
Proof.
  induction l as [|b l IH]; [discriminate|].
  destruct l as [|c l]; simpl; [intros H; inversion H; left; reflexivity|].
  intros H; right; apply IH, H.
Qed.

Lemma set_direction_body (s : Snake) (d : Direction) : body (set_direction s d) = body s.
Proof. unfold set_direction; destruct (is_reverse _ _); reflexivity. Qed.

(** The body after a successful move: the old body, less its first cell
    unless growth was pending, followed by the new head. *)
Lemma move_step_moved (max_x max_y : Z) (s s' : Snake) (nh oh : Coords) (ot : option Coords) :
  move_step max_x max_y s = Some (Moved nh oh ot, s') ->
  last_opt (body s) = Some oh /\ next_head oh (direction s) = Some nh /\
  crashes max_x max_y (body s) nh = false /\ direction s' = direction s /\
  ((grow_next_move s = true /\ ot = None /\ body s' = body s ++ [nh]) \/
   (grow_next_move s = false /\ exists c rest, ot = Some c /\ body s = c :: rest /\ body s' = rest ++ [nh])).
Proof.
  intros H; apply move_step_inv in H as (oh' & nh' & Hl & Hn & H).
  destruct (crashes _ _ _ _) eqn:Hc; [destruct H; discriminate|].
  destruct (grow_next_move s) eqn:Hg.
  - destruct H as [Hr ->]; inversion Hr; subst.
    split; [exact Hl|split; [exact Hn|split; [exact Hc|split; [reflexivity|left]]]].
    split; [first [reflexivity|assumption]|split; reflexivity].
  - destruct H as (c & rest & Hb & Hr & ->); inversion Hr; subst.
    split; [exact Hl|split; [exact Hn|split; [exact Hc|split; [reflexivity|right]]]].
    split; [first [reflexivity|assumption]|exists c, rest; split; [reflexivity|split; [exact Hb|reflexivity]]].
Qed.

Lemma run_length (max_x max_y : Z) (ops : list Op) (s s' : Snake) :
  run max_x max_y s ops = Some s' -> (length (body s) <= length (body s'))%nat.
Proof.
  revert s; induction ops as [|op ops IH]; intros s Hr; simpl in Hr.
  - inversion Hr; subst; lia.
  - destruct op as [d| |].
    + rewrite <- (set_direction_body s d); exact (IH _ Hr).
    + exact (IH _ Hr).
    + destruct (move_step max_x max_y s) as [[[nh oh ot|] s1]|] eqn:Hm; try discriminate.
      specialize (IH s1 Hr).
      destruct (move_step_moved _ _ _ _ _ _ _ Hm) as (_ & _ & _ & _ & [(_ & _ & Hb)|(_ & c & rest & _ & Hb & Hb')]).
      * rewrite Hb, length_app in IH; lia.
      * rewrite Hb', length_app in IH; rewrite Hb; simpl in *; lia.
Qed.

(** The interior of the borders, where [play] keeps the snake
    ([max_x = width - 2], [max_y = height - 2]). *)
Definition in_arena (max_x max_y : Z) (p : Coords) : Prop :=
  1 <= fst p <= max_x /\ 1 <= snd p <= max_y.

Lemma next_head_nonneg (oh nh : Coords) (d : Direction) :
  0 <= fst oh -> 0 <= snd oh -> next_head oh d = Some nh -> 0 <= fst nh /\ 0 <= snd nh.
Proof.
  intros Hx Hy; destruct d; unfold next_head, u16_add, u16_sub;
    repeat match goal with |- context [if ?c then _ else _] => destruct c eqn:?; [|discriminate] end;
    intros H; inversion H; subst; cbn [fst snd];
    repeat match goal with H : (_ <=? _) = true |- _ => apply Z.leb_le in H end; lia.
Qed.

Lemma move_step_arena (max_x max_y : Z) (s s' : Snake) (nh oh : Coords) (ot : option Coords) :
  move_step max_x max_y s = Some (Moved nh oh ot, s') ->
  (forall p, In p (body s) -> in_arena max_x max_y p) ->
  forall p, In p (body s') -> in_arena max_x max_y p.
Proof.
  intros H Hin.
  destruct (move_step_moved _ _ _ _ _ _ _ H) as (Hl & Hn & Hc & _ & Hb).
  assert (Hnh : in_arena max_x max_y nh).
  { destruct (Hin oh (last_opt_In _ _ Hl)) as [Hx Hy].
    destruct (next_head_nonneg oh nh (direction s) ltac:(lia) ltac:(lia) Hn) as [Hx' Hy'].
    unfold crashes in Hc; rewrite !orb_false_iff in Hc.
    destruct Hc as ((((H1 & H2) & H3) & H4) & _).
    apply Z.eqb_neq in H1, H2; apply Z.ltb_ge in H3, H4; unfold in_arena; lia. }
  intros p Hp.
  destruct Hb as [(_ & _ & Hb)|(_ & c & rest & _ & Hb & Hb')].
  - rewrite Hb in Hp; apply in_app_or in Hp as [Hp|[<-|[]]]; [apply Hin, Hp|exact Hnh].
  - rewrite Hb' in Hp; apply in_app_or in Hp as [Hp|[<-|[]]]; [|exact Hnh].
    apply Hin; rewrite Hb; right; exact Hp.
Qed.

Lemma run_arena (max_x max_y : Z) (ops : list Op) (s s' : Snake) :
  run max_x max_y s ops = Some s' ->
  (forall p, In p (body s) -> in_arena max_x max_y p) ->
  forall p, In p (body s') -> in_arena max_x max_y p.
Proof.
  revert s; induction ops as [|op ops IH]; intros s Hr Hin; simpl in Hr.
  - inversion Hr; subst; exact Hin.
  - destruct op as [d| |].
    + apply (IH _ Hr); rewrite set_direction_body; exact Hin.
    + exact (IH _ Hr Hin).
    + destruct (move_step max_x max_y s) as [[[nh oh ot|] s1]|] eqn:Hm; try discriminate.
      exact (IH s1 Hr (move_step_arena _ _ _ _ _ _ _ Hm Hin)).
Qed.

(** X8: along any run of calls, the body never gets shorter, so the score
    [play] computes from it never decreases. *)
Theorem run_never_shrinks (max_x max_y : Z) (ops : list Op) (s s' : Snake)
    (H : run max_x max_y s ops = Some s') :
  (length (body s) <= length (body s'))%nat /\
  forall k, score s = Some k -> exists k', score s' = Some k' /\ k <= k'.
Proof.
  pose proof (run_length _ _ _ _ _ H) as Hl; split; [exact Hl|].
  intros k; unfold score, u64_sub.
  destruct (INITIAL_SNAKE_LENGTH <=? Z.of_nat (length (body s))) eqn:E; [|discriminate].
  apply Z.leb_le in E; intros Hk; inversion Hk; subst k.
  rewrite (proj2 (Z.leb_le _ _)) by lia; eexists; split; [reflexivity|lia].
Qed.

(** Grow, then two moves and a turn from the start position. *)
Definition grow_ops : list Op := [Grow; Move; SetDirection Down; Move].

Lemma run_never_shrinks_witness :
  exists s', run 20 20 start_snake grow_ops = Some s' /\
    (length (body start_snake) <= length (body s'))%nat /\
    forall k, score start_snake = Some k -> exists k', score s' = Some k' /\ k <= k'.
Proof.
  eexists; split; [reflexivity|].
  exact (run_never_shrinks 20 20 grow_ops start_snake _ eq_refl).
Defined.

(** X9: a run that starts with the body inside the arena keeps every body
    cell inside it: a successful move never leaves the arena. *)
Theorem run_stays_in_arena (max_x max_y : Z) (ops : list Op) (s s' : Snake)
    (H : run max_x max_y s ops = Some s')
    (Hin : forall p, In p (body s) -> in_arena max_x max_y p) :
  forall p, In p (body s') -> in_arena max_x max_y p.
Proof. exact (run_arena _ _ _ _ _ H Hin). Qed.

Lemma run_stays_in_arena_witness :
  exists s', run 20 20 start_snake grow_ops = Some s' /\
    (forall p, In p (body start_snake) -> in_arena 20 20 p) /\
    forall p, In p (body s') -> in_arena 20 20 p.
Proof.
  assert (Hin : forall p, In p (body start_snake) -> in_arena 20 20 p).
  { intros p Hp; simpl in Hp; unfold in_arena;
      repeat (destruct Hp as [<-|Hp]; [cbn [fst snd]; lia|]); destruct Hp. }
  eexists; split; [reflexivity|split; [exact Hin|]].
  exact (run_stays_in_arena 20 20 grow_ops start_snake _ eq_refl Hin).
Defined.

(** ** Drawing the snake *)
Section SnakeView.
Import Term.

(** The character a body cell should show: the head glyph on the last
    cell, the body glyph on the others. *)
Definition glyph (s : Snake) (p : Coords) : Char :=
  match last_opt (body s) with
  | Some h => if coords_eqb p h then head_char s else SNAKE_BODY_CHAR
  | None => SNAKE_BODY_CHAR
  end.

(** A cell shows [c] in the mirror and on the device. *)
Definition cell (t : TermManager) (p : Coords) (c : Char) : Prop :=
  mirror_at t p = Some c /\ device t p = c.

Definition renders (t : TermManager) (s : Snake) : Prop :=
  forall p, In p (body s) -> cell t p (glyph s p).

Lemma print_at_step (t t' : TermManager) (q : Coords) (c : Char) :
  sized t -> in_term t q -> print_at t q c = Some t' ->
  sized t' /\ width t' = width t /\ height t' = height t /\ current_msg t' = current_msg t /\
  cell t' q c /\
  (forall p v, in_term t p -> p <> q -> cell t p v -> cell t' p v) /\
  (synced t = true -> synced t' = true).
Proof.
  intros Hs Hq H.
  destruct (print_at_spec t q c Hs Hq) as (t2 & E & Hw & Hh & Hm & Hs2 & Hmq & Hdq & Hd & Hmp).
  rewrite E in H; inversion H; subst t2; clear H.
  split; [exact Hs2|split; [exact Hw|split; [exact Hh|split; [exact Hm|split; [split; assumption|split]]]]].
  - intros p v Hp Hne [H1 H2]; split; [rewrite Hmp; assumption|rewrite Hd; assumption].
  - intros Hy; destruct (print_at_synced t q c Hs Hq Hy) as (t3 & E3 & Hy3 & _).
    rewrite E in E3; inversion E3; subst; exact Hy3.
Qed.

Lemma in_term_same (t t' : TermManager) (p : Coords) :
  width t' = width t -> height t' = height t -> in_term t p -> in_term t' p.
Proof. unfold in_term; intros -> ->; auto. Qed.

Lemma next_head_ne (oh nh : Coords) (d : Direction) : next_head oh d = Some nh -> nh <> oh.
Proof.
  destruct oh as [x y]; destruct d; unfold next_head, u16_add, u16_sub; cbn [fst snd];
    repeat match goal with |- context [if ?c then _ else _] => destruct c; [|discriminate] end;
    intros H; inversion H; subst; intros E; inversion E; lia.
Qed.



Lemma coords_dec (p q : Coords) : p = q \/ p <> q.
Proof.
  destruct (coords_eqb p q) eqn:E; [left; apply coords_eqb_eq, E|right].
  intros ->; rewrite (proj2 (coords_eqb_eq q q) eq_refl) in E; discriminate.
Qed.

(** The three writes of [print_snake_update], cell by cell. *)
Lemma print_snake_update_cells (t : TermManager) (s : Snake) (nh oh : Coords) (ot : option Coords) :
  sized t -> in_term t nh -> in_term t oh -> (forall c, ot = Some c -> in_term t c) -> nh <> oh ->
  exists t', print_snake_update t s (Moved nh oh ot) = Some t' /\
    sized t' /\ width t' = width t /\ height t' = height t /\ current_msg t' = current_msg t /\
    (synced t = true -> synced t' = true) /\
    (ot <> Some nh -> cell t' nh (head_char s)) /\
    (ot <> Some oh -> cell t' oh SNAKE_BODY_CHAR) /\
    (forall c, ot = Some c -> cell t' c SPACE) /\
    (forall p v, in_term t p -> p <> nh -> p <> oh -> ot <> Some p -> cell t p v -> cell t' p v).
Proof.
  intros Hs Hnh Hoh Hot Hne; unfold print_snake_update.
  destruct (print_at_spec t nh (head_char s) Hs Hnh) as (t1 & E1 & _); rewrite E1.
  destruct (print_at_step _ _ _ _ Hs Hnh E1) as (S1 & W1 & H1 & M1 & C1 & K1 & Y1).
  assert (Hoh1 : in_term t1 oh) by exact (in_term_same _ _ _ W1 H1 Hoh).
  destruct (print_at_spec t1 oh SNAKE_BODY_CHAR S1 Hoh1) as (t2 & E2 & _); rewrite E2.
  destruct (print_at_step _ _ _ _ S1 Hoh1 E2) as (S2 & W2 & H2 & M2 & C2 & K2 & Y2).
  destruct ot as [c|].
  - assert (Hc2 : in_term t2 c)
      by exact (in_term_same _ _ _ (eq_trans W2 W1) (eq_trans H2 H1) (Hot c eq_refl)).
    destruct (print_at_spec t2 c SPACE S2 Hc2) as (t3 & E3 & _); rewrite E3.
    destruct (print_at_step _ _ _ _ S2 Hc2 E3) as (S3 & W3 & H3 & M3 & C3 & K3 & Y3).
    assert (Hin2 : forall p, in_term t p -> in_term t2 p)
      by (intros p Hp; exact (in_term_same _ _ _ (eq_trans W2 W1) (eq_trans H2 H1) Hp)).
    assert (Hin1 : forall p, in_term t p -> in_term t1 p)
      by (intros p Hp; exact (in_term_same _ _ _ W1 H1 Hp)).
    exists t3; split; [reflexivity|].
    split; [exact S3|split; [congruence|split; [congruence|split; [congruence|]]]].
    split; [intros Hy; apply Y3, Y2, Y1, Hy|].
    split; [|split; [|split]].
    + intros Hc; apply K3; [apply Hin2, Hnh|intros ->; apply Hc; reflexivity|].
      apply K2; [apply Hin1, Hnh|exact Hne|exact C1].
    + intros Hc; apply K3; [apply Hin2, Hoh|intros ->; apply Hc; reflexivity|exact C2].
    + intros c' Hc'; inversion Hc'; subst c'; exact C3.
    + intros p v Hp Hpn Hpo Hpc Hv.
      apply K3; [apply Hin2, Hp|intros ->; apply Hpc; reflexivity|].
      apply K2; [apply Hin1, Hp|exact Hpo|].
      apply K1; [exact Hp|exact Hpn|exact Hv].
  - exists t2; split; [reflexivity|].
    split; [exact S2|split; [congruence|split; [congruence|split; [congruence|]]]].
    split; [intros Hy; apply Y2, Y1, Hy|].
    split; [|split; [|split]].
    + intros _; apply K2; [apply (in_term_same _ _ _ W1 H1 Hnh)|exact Hne|exact C1].
    + intros _; exact C2.
    + intros c' Hc'; discriminate.
    + intros p v Hp Hpn Hpo _ Hv.
      apply K2; [apply (in_term_same _ _ _ W1 H1 Hp)|exact Hpo|].
      apply K1; [exact Hp|exact Hpn|exact Hv].
Qed.

(** Facts established by one iteration that the later ones keep, under an
    invariant of the loop. *)
Lemma for_each_establish_inv {A} (f : TermManager -> A -> option TermManager)
    (I : TermManager -> Prop) (E : A -> TermManager -> Prop) (l : list A) (t t' : TermManager) :
  (forall a t1 t2, In a l -> f t1 a = Some t2 -> I t1 -> I t2) ->
  (forall a b t1 t2, In a l -> In b l -> f t1 a = Some t2 -> I t1 -> E b t1 -> E b t2) ->
  (forall a t1 t2, In a l -> f t1 a = Some t2 -> I t1 -> E a t2) ->
  I t -> for_each f l t = Some t' -> forall a, In a l -> E a t'.
Proof.
  intros HI Hkeep Hest; revert t; induction l as [|a l IH]; intros t Ht H b Hb; [destruct Hb|].
  simpl in H; destruct (f t a) as [t1|] eqn:Ef; [|discriminate].
  assert (Ht1 : I t1) by exact (HI a t t1 (or_introl eq_refl) Ef Ht).
  destruct Hb as [<-|Hb].
  - apply (for_each_invariant f (fun t => I t /\ E a t) l t1 t'); [|exact H|].
    + intros c t2 t3 Hc Hf [Hi He]; split; [exact (HI c t2 t3 (or_intror Hc) Hf Hi)|].
      exact (Hkeep c a t2 t3 (or_intror Hc) (or_introl eq_refl) Hf Hi He).
    + split; [exact Ht1|exact (Hest a t t1 (or_introl eq_refl) Ef Ht)].
  - refine (IH _ _ _ t1 Ht1 H b Hb).
    + intros a0 t2 t3 Ha0 Hf0 Hi0; exact (HI a0 t2 t3 (or_intror Ha0) Hf0 Hi0).
    + intros a0 b0 t2 t3 Ha0 Hb0 Hf0 Hi0 He0.
      exact (Hkeep a0 b0 t2 t3 (or_intror Ha0) (or_intror Hb0) Hf0 Hi0 He0).
    + intros a0 t2 t3 Ha0 Hf0 Hi0; exact (Hest a0 t2 t3 (or_intror Ha0) Hf0 Hi0).
Qed.

Lemma enumerate_nth {A} (n i : Z) (a : A) (l : list A) :
  In (i, a) (enumerate n l) -> nth_error l (Z.to_nat (i - n)) = Some a.
Proof.
  revert n; induction l as [|b l IH]; intros n H; [destruct H|].
  destruct H as [H|H]; [inversion H; subst; rewrite Z.sub_diag; reflexivity|].
  destruct (enumerate_In (n + 1) i a l H) as [Hi _].
  specialize (IH (n + 1) H).
  replace (Z.to_nat (i - n)) with (S (Z.to_nat (i - (n + 1)))) by lia; exact IH.
Qed.

Lemma nth_enumerate {A} (n : Z) (k : nat) (a : A) (l : list A) :
  nth_error l k = Some a -> In (n + Z.of_nat k, a) (enumerate n l).
Proof.
  revert n k; induction l as [|b l IH]; intros n [|k] Hk; try discriminate;
    cbn [nth_error enumerate In] in Hk |- *.
  - inversion Hk; subst; left; f_equal; lia.
  - right; replace (n + Z.of_nat (S k)) with (n + 1 + Z.of_nat k) by lia; apply IH, Hk.
Qed.

Lemma last_opt_nth {A} (l : list A) (h : A) :
  last_opt l = Some h -> nth_error l (length l - 1) = Some h.
Proof.
  induction l as [|a l IH]; [discriminate|].
  destruct l as [|b l]; [intros H; inversion H; reflexivity|].
  intros H; simpl in H; specialize (IH H); simpl in IH |- *.
  replace (length l - 0)%nat with (length l) in IH by lia; exact IH.
Qed.

(** In [print_snake], index [snake_len - 1] is the cell of the head. *)
Lemma print_snake_char (s : Snake) (i : Z) (pos : Coords) :
  NoDup (body s) -> In (i, pos) (enumerate 0 (body s)) ->
  (if i =? Z.of_nat (length (body s)) - 1 then head_char s else SNAKE_BODY_CHAR) = glyph s pos.
Proof.
  intros Hnd Hi.
  pose proof (enumerate_nth 0 i pos (body s) Hi) as Hn; rewrite Z.sub_0_r in Hn.
  destruct (enumerate_In 0 i pos (body s) Hi) as [Hr Hp].
  unfold glyph.
  destruct (last_opt (body s)) as [h|] eqn:Hl.
  2:{ exfalso; destruct (body s) as [|a l]; [destruct Hp|].
      clear -Hl; revert a Hl; induction l as [|b l IH]; intros a Hl; [discriminate|exact (IH b Hl)]. }
  pose proof (last_opt_nth _ _ Hl) as Hh.
  destruct (i =? Z.of_nat (length (body s)) - 1) eqn:E.
  - apply Z.eqb_eq in E.
    replace (Z.to_nat i) with (length (body s) - 1)%nat in Hn by lia.
    rewrite Hh in Hn; inversion Hn; subst; rewrite (proj2 (coords_eqb_eq pos pos) eq_refl); reflexivity.
  - apply Z.eqb_neq in E.
    destruct (coords_eqb pos h) eqn:F; [|reflexivity].
    apply coords_eqb_eq in F; subst h.
    rewrite <- Hh in Hn.
    apply (proj1 (NoDup_nth_error (body s)) Hnd) in Hn; lia.
Qed.

(** [print_snake] draws every body cell with its glyph. *)
Lemma print_snake_spec (t : TermManager) (s : Snake) :
  sized t -> NoDup (body s) -> (forall p, In p (body s) -> in_term t p) ->
  exists t', print_snake t s = Some t' /\ renders t' s /\
    sized t' /\ width t' = width t /\ height t' = height t /\ current_msg t' = current_msg t /\
    (synced t = true -> synced t' = true) /\
    (forall p v, in_term t p -> ~ In p (body s) -> cell t p v -> cell t' p v).
Proof.
  intros Hs Hnd Hin.
  set (f := fun t (ip : Z * Coords) => print_at t (snd ip) (glyph s (snd ip))).
  assert (Hf : print_snake t s = for_each f (enumerate 0 (body s)) t).
  { unfold print_snake; apply for_each_ext; intros t1 [i pos] Hi; unfold f; cbn [snd].
    rewrite (print_snake_char s i pos Hnd Hi); reflexivity. }
  set (I := fun t' => sized t' /\ width t' = width t /\ height t' = height t /\
                      current_msg t' = current_msg t).
  assert (Hpos : forall i pos, In (i, pos) (enumerate 0 (body s)) -> in_term t pos)
    by (intros i pos H; apply Hin, (enumerate_In 0 i pos _ H)).
  assert (HI : forall a t1 t2, In a (enumerate 0 (body s)) -> f t1 a = Some t2 -> I t1 -> I t2).
  { intros [i pos] t1 t2 Ha Hf12 (S1 & W1 & H1 & M1).
    assert (Hp : in_term t1 pos) by (apply (in_term_same t t1); auto; exact (Hpos i pos Ha)).
    destruct (print_at_step _ _ _ _ S1 Hp Hf12) as (S2 & W2 & H2 & M2 & _).
    repeat split; congruence. }
  destruct (for_each_some f (fun t' => I t' /\ (synced t = true -> synced t' = true))
              (enumerate 0 (body s)) t) as (t' & E & (S' & W' & H' & M') & Y');
    [|split; [split; [exact Hs|repeat split]|auto]|].
  { intros [i pos] t1 Ha ((S1 & W1 & H1 & M1) & Y1).
    assert (Hp : in_term t1 pos) by (apply (in_term_same t t1); auto; exact (Hpos i pos Ha)).
    destruct (print_at_spec t1 pos (glyph s pos) S1 Hp) as (t2 & E2 & _).
    exists t2; split; [exact E2|].
    destruct (print_at_step _ _ _ _ S1 Hp E2) as (S2 & W2 & H2 & M2 & _ & _ & Y2).
    split; [repeat split; congruence|intros Hy; apply Y2, Y1, Hy]. }
  exists t'; rewrite Hf; split; [exact E|].
  split; [|split; [exact S'|split; [exact W'|split; [exact H'|split; [exact M'|split; [exact Y'|]]]]]].
  - intros p Hp.
    destruct (In_nth_error _ _ Hp) as [k Hk].
    assert (Hk' : In (0 + Z.of_nat k, p) (enumerate 0 (body s))) by (apply nth_enumerate, Hk).
    refine (for_each_establish_inv f I (fun a t => cell t (snd a) (glyph s (snd a)))
              _ t t' HI _ _ (conj Hs (conj eq_refl (conj eq_refl eq_refl))) E _ Hk').
    + intros [i q] [j pos] t1 t2 Ha Hb Hf12 (S1 & W1 & H1 & M1) Hc; cbn [snd] in *.
      assert (Hq : in_term t1 q) by (apply (in_term_same t t1); auto; exact (Hpos i q Ha)).
      assert (Hp1 : in_term t1 pos) by (apply (in_term_same t t1); auto; exact (Hpos j pos Hb)).
      destruct (print_at_step _ _ _ _ S1 Hq Hf12) as (_ & _ & _ & _ & C2 & K2 & _).
      destruct (coords_dec pos q) as [->|Hne]; [exact C2|exact (K2 _ _ Hp1 Hne Hc)].
    + intros [i q] t1 t2 Ha Hf12 (S1 & W1 & H1 & M1); cbn [snd].
      assert (Hq : in_term t1 q) by (apply (in_term_same t t1); auto; exact (Hpos i q Ha)).
      destruct (print_at_step _ _ _ _ S1 Hq Hf12) as (_ & _ & _ & _ & C2 & _); exact C2.
  - intros p v Hp Hnot Hc.
    apply (for_each_invariant f (fun t' => I t' /\ cell t' p v) (enumerate 0 (body s)) t t'); [|exact E|split; [split; [exact Hs|repeat split]|exact Hc]].
    intros [i q] t1 t2 Ha Hf12 ((S1 & W1 & H1 & M1) & Hc1).
    assert (Hq : in_term t1 q) by (apply (in_term_same t t1); auto; exact (Hpos i q Ha)).
    destruct (print_at_step _ _ _ _ S1 Hq Hf12) as (S2 & W2 & H2 & M2 & _ & K2 & _).
    split; [repeat split; congruence|].
    apply K2; [apply (in_term_same t t1); auto|intros ->|exact Hc1].
    apply Hnot, (enumerate_In 0 i q _ Ha).
Qed.

End SnakeView.

(** Case split on membership in a literal list. *)
Ltac members H tac := simpl in H; repeat (destruct H as [<-|H]; [tac|]); destruct H.

Section SnakeViewFacts.
Import Term.

(** X10: [print_snake] of a snake without repeated cells, all on the
    terminal, draws every body cell with its glyph (head glyph on the last
    cell, body glyph elsewhere) in the mirror and on the device, touches no
    other cell, and keeps a device that shows the mirror in that state. *)
Theorem print_snake_renders (t : TermManager) (s : Snake)
    (Hs : sized t) (Hnd : NoDup (body s)) (Hin : forall p, In p (body s) -> in_term t p) :
  exists t', print_snake t s = Some t' /\ renders t' s /\
    (synced t = true -> synced t' = true) /\
    (forall p v, in_term t p -> ~ In p (body s) -> cell t p v -> cell t' p v).
Proof.
  destruct (print_snake_spec t s Hs Hnd Hin) as (t' & E & Hr & _ & _ & _ & _ & Hy & Hk).
  exists t'; split; [exact E|split; [exact Hr|split; [exact Hy|exact Hk]]].
Qed.


(** X12: when the head moves onto the cell the tail vacates in the same
    move (allowed, since the crash test skips the tail), [print_snake_update]
    writes the blank for the vacated tail last, over the head it has just
    drawn: the head cell of the new snake shows a blank. *)
Theorem print_snake_update_blanks_head (t : TermManager) (s s1 : Snake) (max_x max_y : Z)
    (nh oh : Coords)
    (Hs : sized t) (Hin : forall p, In p (body s) -> in_term t p)
    (Hmv : move_step max_x max_y s = Some (Moved nh oh (Some nh), s1)) :
  last_opt (body s1) = Some nh /\
  exists t', print_snake_update t s1 (Moved nh oh (Some nh)) = Some t' /\ cell t' nh SPACE.
Proof.
  destruct (move_step_moved _ _ _ _ _ _ _ Hmv) as (Hl & Hn & _ & Hd & Hcase).
  destruct Hcase as [(_ & Hc & _)|(_ & c & rest & Hc & Hb & Hb1)]; [discriminate|].
  inversion Hc; subst c.
  split; [rewrite Hb1; apply last_opt_app_single|].
  assert (Hnh : in_term t nh) by (apply Hin; rewrite Hb; left; reflexivity).
  assert (Hoh : in_term t oh) by exact (Hin oh (last_opt_In _ _ Hl)).
  destruct (print_snake_update_cells t s1 nh oh (Some nh) Hs Hnh Hoh
              ltac:(intros c Hc'; inversion Hc'; subst; exact Hnh) (next_head_ne _ _ _ Hn))
    as (t' & E & _ & _ & _ & _ & _ & _ & _ & Cc & _).
  exists t'; split; [exact E|exact (Cc nh eq_refl)].
Qed.

(** X13: when the apple [play] spawns after a meal lands on the cell the
    tail has just vacated (a free cell, so [spawn_apple] may pick it),
    [print_at] draws the apple there and the [print_snake_update] that
    follows writes the blank for the vacated tail over it: the new apple,
    off the snake, is shown as a blank. *)
Theorem apple_on_vacated_tail_erased (positions : list Coords) (t : TermManager) (s s1 : Snake)
    (max_x max_y sc : Z) (nh oh c : Coords) (r : nat)
    (Hs : sized t) (Hin : forall p, In p (body s) -> in_term t p) (Hnh : in_term t nh)
    (Hmv : move_step max_x max_y s = Some (Moved nh oh (Some c), s1))
    (Hspawn : spawn_apple positions s1 r = Some c) :
  ~ In c (body s1) /\
  exists t', after_move positions t nh sc s1 (Moved nh oh (Some c)) r = Some (Next c (grow s1) t') /\
    cell t' c SPACE.
Proof.
  destruct (move_step_moved _ _ _ _ _ _ _ Hmv) as (Hl & Hn & _ & Hd & Hcase).
  destruct Hcase as [(_ & Hc & _)|(_ & c' & rest & Hc & Hb & Hb1)]; [discriminate|].
  inversion Hc; subst c'.
  split.
  { apply choose_Some, filter_In in Hspawn as [_ Hf].
    apply negb_true_iff in Hf; intros Hc'; apply contains_In in Hc'; congruence. }
  assert (Hct : in_term t c) by (apply Hin; rewrite Hb; left; reflexivity).
  assert (Hoh : in_term t oh) by exact (Hin oh (last_opt_In _ _ Hl)).
  unfold after_move; rewrite (proj2 (coords_eqb_eq nh nh) eq_refl), Hspawn.
  destruct (print_at_spec t c APPLE_CHAR Hs Hct) as (t1 & E1 & _); rewrite E1.
  destruct (print_at_step _ _ _ _ Hs Hct E1) as (S1 & W1 & H1 & _).
  destruct (print_snake_update_cells t1 (grow s1) nh oh (Some c) S1
              (in_term_same _ _ _ W1 H1 Hnh) (in_term_same _ _ _ W1 H1 Hoh)
              ltac:(intros c' Hc'; inversion Hc'; subst; exact (in_term_same _ _ _ W1 H1 Hct))
              (next_head_ne _ _ _ Hn))
    as (t' & E & _ & _ & _ & _ & _ & _ & _ & Cc & _).
  rewrite E; exists t'; split; [reflexivity|exact (Cc c eq_refl)].
Qed.

(** A blank 10x5 terminal, a snake of three cells and a ring of six. *)
Definition blank_term : TermManager := mkTerm 10 5 (repeat SPACE 50) (fun _ => SPACE) None.

Definition small_snake : Snake := mkSnake [(2, 2); (3, 2); (4, 2)] Right false.

Definition ring_snake : Snake := mkSnake [(3, 2); (4, 2); (5, 2); (5, 3); (4, 3); (3, 3)] Up false.

Definition drawn_term : TermManager :=
  match print_snake blank_term small_snake with Some t => t | None => blank_term end.

Definition positions_10x5 : list Coords :=
  match game_positions 10 5 with Some l => l | None => [] end.

Lemma small_snake_in : forall p, In p (body small_snake) -> in_term blank_term p.
Proof. intros p Hp; members Hp ltac:(unfold in_term; simpl; lia). Qed.

Lemma small_snake_NoDup : NoDup (body small_snake).
Proof. repeat constructor; simpl; intros H; repeat (destruct H as [H|H]; [discriminate|]); exact H. Qed.

Lemma ring_snake_in : forall p, In p (body ring_snake) -> in_term blank_term p.
Proof. intros p Hp; members Hp ltac:(unfold in_term; simpl; lia). Qed.

Lemma print_snake_renders_witness :
  exists t', print_snake blank_term small_snake = Some t' /\ renders t' small_snake /\
    (synced blank_term = true -> synced t' = true) /\
    (forall p v, in_term blank_term p -> ~ In p (body small_snake) -> cell blank_term p v -> cell t' p v).
Proof.
  exact (print_snake_renders blank_term small_snake eq_refl small_snake_NoDup small_snake_in).
Defined.


Lemma print_snake_update_blanks_head_witness :
  last_opt [(4, 2); (5, 2); (5, 3); (4, 3); (3, 3); (3, 2)] = Some (3, 2) /\
  exists t', print_snake_update blank_term (mkSnake [(4, 2); (5, 2); (5, 3); (4, 3); (3, 3); (3, 2)] Up false)
               (Moved (3, 2) (3, 3) (Some (3, 2))) = Some t' /\ cell t' (3, 2) SPACE.
Proof.
  exact (print_snake_update_blanks_head blank_term ring_snake
           (mkSnake [(4, 2); (5, 2); (5, 3); (4, 3); (3, 3); (3, 2)] Up false) 8 3 (3, 2) (3, 3)
           eq_refl ring_snake_in eq_refl).
Defined.

Lemma apple_on_vacated_tail_erased_witness :
  ~ In (2, 2) [(3, 2); (4, 2); (5, 2)] /\
  exists t', after_move positions_10x5 drawn_term (5, 2) 0 (mkSnake [(3, 2); (4, 2); (5, 2)] Right false)
               (Moved (5, 2) (4, 2) (Some (2, 2))) 9 =
             Some (Next (2, 2) (grow (mkSnake [(3, 2); (4, 2); (5, 2)] Right false)) t') /\
    cell t' (2, 2) SPACE.
Proof.
  apply (apple_on_vacated_tail_erased positions_10x5 drawn_term small_snake
           (mkSnake [(3, 2); (4, 2); (5, 2)] Right false) 8 3 0 (5, 2) (4, 2) (2, 2) 9);
    [reflexivity|intros p Hp; members Hp ltac:(unfold in_term; simpl; lia)
    |unfold in_term; simpl; lia|reflexivity|vm_compute; reflexivity].
Defined.

End SnakeViewFacts.

(** ** The key loop of [play] *)
Section Keys.
Import Term.

(** The direction chosen by a key in the inner [match code] of [play]. *)
Definition key_direction (ev : KeyEvent) : option Direction :=
  match code ev with
  | KChar 119 | KUp => Some Up
  | KChar 97 | KLeft => Some Left
  | KChar 115 | KDown => Some Down
  | KChar 100 | KRight => Some Right
  | _ => None
  end.

Definition is_esc (ev : KeyEvent) : bool :=
  match code ev with KEsc => true | _ => false end.

Lemma handle_keys_cons (ev : KeyEvent) (evs : list KeyEvent) (d : option Direction) (p : bool)
    (t : TermManager) :
  handle_keys (ev :: evs) d p t =
  if is_ctrl_c ev then Some (Quit t)
  else match key_direction ev with
       | Some dir => handle_keys evs (Some dir) p t
       | None => if is_esc ev then (pt <- toggle_pause p t ;; handle_keys evs d (fst pt) (snd pt))
                 else handle_keys evs d p t
       end.
Proof.
  cbn [handle_keys]; destruct (is_ctrl_c ev); [reflexivity|].
  unfold key_direction, is_esc; destruct (code ev) as [c| | | | | |]; try reflexivity.
  destruct c as [|q|q]; try reflexivity;
    repeat (destruct q as [q|q|]; try reflexivity).
Qed.

Lemma handle_keys_app (evs1 evs2 : list KeyEvent) (d : option Direction) (p : bool) (t : TermManager) :
  handle_keys (evs1 ++ evs2) d p t =
  match handle_keys evs1 d p t with
  | Some (Continue d' p' t') => handle_keys evs2 d' p' t'
  | o => o
  end.
Proof.
  revert d p t; induction evs1 as [|ev evs1 IH]; intros d p t; [reflexivity|].
  rewrite <- app_comm_cons, !handle_keys_cons.
  destruct (is_ctrl_c ev); [reflexivity|].
  destruct (key_direction ev); [apply IH|].
  destruct (is_esc ev); [|apply IH].
  destruct (toggle_pause p t) as [pt|]; [apply IH|reflexivity].
Qed.

Lemma direction_not_ctrl_c (ev : KeyEvent) (dir : Direction) :
  key_direction ev = Some dir -> is_ctrl_c ev = false.
Proof.
  unfold key_direction, is_ctrl_c; destruct (code ev) as [c| | | | | |]; try reflexivity.
  destruct (Z.eqb_spec c 99) as [->|]; [discriminate|reflexivity].
Qed.

Lemma ignored_keys (post : list KeyEvent) (d : option Direction) (p : bool) (t : TermManager) :
  (forall e, In e post -> is_ctrl_c e = false /\ key_direction e = None /\ is_esc e = false) ->
  handle_keys post d p t = Some (Continue d p t).
Proof.
  induction post as [|e post IH]; intros H; [reflexivity|].
  rewrite handle_keys_cons.
  destruct (H e (or_introl eq_refl)) as (-> & -> & ->).
  apply IH; intros e' He'; apply H; right; exact He'.
Qed.

Lemma lines_ok_paused : lines_ok paused_lines.
Proof. split; [discriminate|split; [repeat constructor; simpl; lia|simpl; lia]]. Qed.

End Keys.

Section KeyFacts.
Import Term.

(** X14: in one drain of the key queue the last direction key wins: after
    a direction key, keys that are neither Ctrl+C, a direction nor Esc leave
    the pending direction, the pause flag and the terminal as they are. *)
Theorem handle_keys_last_direction (pre post : list KeyEvent) (e : KeyEvent) (d d0 : option Direction)
    (p p' : bool) (t t' : TermManager) (dir : Direction)
    (Hpre : handle_keys pre d p t = Some (Continue d0 p' t'))
    (He : key_direction e = Some dir)
    (Hpost : forall e', In e' post -> is_ctrl_c e' = false /\ key_direction e' = None /\ is_esc e' = false) :
  handle_keys (pre ++ e :: post) d p t = Some (Continue (Some dir) p' t').
Proof.
  rewrite handle_keys_app, Hpre, handle_keys_cons, (direction_not_ctrl_c e dir He), He.
  apply ignored_keys; exact Hpost.
Qed.

(** X15: Ctrl+C ends the drain at once: the keys queued after it are never
    handled, and the terminal is left as the keys before it made it. *)
Theorem handle_keys_ctrl_c_quits (pre post : list KeyEvent) (e : KeyEvent) (d d0 : option Direction)
    (p p' : bool) (t t' : TermManager)
    (Hpre : handle_keys pre d p t = Some (Continue d0 p' t')) (He : is_ctrl_c e = true) :
  handle_keys (pre ++ e :: post) d p t = Some (Quit t').
Proof. rewrite handle_keys_app, Hpre, handle_keys_cons, He; reflexivity. Qed.

(** X16: [is_ctrl_c] compares the modifiers for equality with CONTROL, so a
    'c' pressed with any other modifier set (Ctrl+Shift, Ctrl+Alt, none) does
    not quit and is skipped like any other key. *)
Theorem ctrl_c_needs_exact_modifiers (m : Z) (evs : list KeyEvent) (d : option Direction)
    (p : bool) (t : TermManager) (Hm : m <> CONTROL) :
  handle_keys (mkKey (KChar 99) m :: evs) d p t = handle_keys evs d p t.
Proof.
  rewrite handle_keys_cons; unfold is_ctrl_c; cbn [code modifiers].
  destruct (Z.eqb_spec m CONTROL); [contradiction|reflexivity].
Qed.

(** X17: two presses of Esc, from an unpaused game with no message on a
    terminal whose device shows its mirror and which holds the pause box,
    first show the pause box and set the pause flag, then hide it and clear
    the flag: the device and the mirror are as before. *)
Theorem esc_esc_restores (e1 e2 : KeyEvent) (evs : list KeyEvent) (d : option Direction)
    (t : TermManager) (msg : Message)
    (He1 : is_esc e1 = true) (He2 : is_esc e2 = true)
    (Hm : current_msg t = None) (Hsync : synced t = true)
    (Hw : width t <= U16_MAX) (Hh : height t <= U16_MAX)
    (Hbox : message_box t paused_lines = Some msg)
    (Hfx : fst (top_left msg) + m_width msg <= width t)
    (Hfy : snd (top_left msg) + m_height msg <= height t) :
  exists t1 t2,
    handle_keys (e1 :: evs) d false t = handle_keys evs d true t1 /\ current_msg t1 = Some msg /\
    handle_keys (e1 :: e2 :: evs) d false t = handle_keys evs d false t2 /\
    screen t2 = screen t /\ current_msg t2 = None /\ forall q, device t2 q = device t q.
Proof.
  assert (Hk : forall e, is_esc e = true -> is_ctrl_c e = false /\ key_direction e = None).
  { intros e; unfold is_esc, is_ctrl_c, key_direction; destruct (code e); try discriminate; auto. }
  destruct (Hk e1 He1) as [C1 D1], (Hk e2 He2) as [C2 D2].
  destruct (ascii_round_trip t paused_lines msg Hm Hsync Hw Hh lines_ok_paused Hbox Hfx Hfy)
    as (t1 & t2 & Hs & Hm1 & _ & Hhide & _ & _ & Hsc & Hm2 & Hd).
  exists t1, t2.
  assert (E1 : forall evs', handle_keys (e1 :: evs') d false t = handle_keys evs' d true t1)
    by (intros evs'; rewrite handle_keys_cons, C1, D1, He1; unfold toggle_pause; cbn [negb];
        rewrite Hs; reflexivity).
  split; [apply E1|split; [exact Hm1|]].
  rewrite E1, handle_keys_cons, C2, D2, He2; unfold toggle_pause; cbn [negb].
  rewrite Hhide; cbn [fst snd].
  split; [reflexivity|split; [exact Hsc|split; [exact Hm2|exact Hd]]].
Qed.

Definition blank_wide : TermManager := mkTerm 40 10 (repeat SPACE 400) (fun _ => SPACE) None.

Lemma handle_keys_last_direction_witness :
  handle_keys [mkKey KUp 0] None false blank_term = Some (Continue (Some Up) false blank_term) /\
  key_direction (mkKey (KChar 97) 0) = Some Left /\
  handle_keys ([mkKey KUp 0] ++ mkKey (KChar 97) 0 :: [mkKey KOther 0; mkKey (KChar 120) 0]) None false blank_term =
    Some (Continue (Some Left) false blank_term).
Proof.
  split; [reflexivity|split; [reflexivity|]].
  apply (handle_keys_last_direction [mkKey KUp 0] [mkKey KOther 0; mkKey (KChar 120) 0]
           (mkKey (KChar 97) 0) None (Some Up) false false blank_term blank_term Left);
    [reflexivity|reflexivity|].
  intros e' He'; members He' ltac:(repeat split).
Defined.

Lemma handle_keys_ctrl_c_quits_witness :
  handle_keys [mkKey KDown 0] None false blank_term = Some (Continue (Some Down) false blank_term) /\
  is_ctrl_c (mkKey (KChar 99) CONTROL) = true /\
  handle_keys ([mkKey KDown 0] ++ mkKey (KChar 99) CONTROL :: [mkKey KEsc 0]) None false blank_term =
    Some (Quit blank_term).
Proof.
  split; [reflexivity|split; [reflexivity|]].
  exact (handle_keys_ctrl_c_quits [mkKey KDown 0] [mkKey KEsc 0] (mkKey (KChar 99) CONTROL) None
           (Some Down) false false blank_term blank_term eq_refl eq_refl).
Defined.

Lemma ctrl_c_needs_exact_modifiers_witness :
  3 <> CONTROL /\
  handle_keys (mkKey (KChar 99) 3 :: [mkKey KLeft 0]) None false blank_term =
    handle_keys [mkKey KLeft 0] None false blank_term.
Proof.
  split; [unfold CONTROL; lia|].
  apply (ctrl_c_needs_exact_modifiers 3 [mkKey KLeft 0] None false blank_term); unfold CONTROL; lia.
Defined.

Lemma esc_esc_restores_witness :
  exists t1 t2,
    handle_keys (mkKey KEsc 0 :: []) None false blank_wide = handle_keys [] None true t1 /\
    current_msg t1 = Some (mkMessage (10, 3) 21 5) /\
    handle_keys (mkKey KEsc 0 :: mkKey KEsc 0 :: []) None false blank_wide = handle_keys [] None false t2 /\
    screen t2 = screen blank_wide /\ current_msg t2 = None /\ forall q, device t2 q = device blank_wide q.
Proof.
  apply (esc_esc_restores (mkKey KEsc 0) (mkKey KEsc 0) [] None blank_wide (mkMessage (10, 3) 21 5));
    [reflexivity|reflexivity|reflexivity|vm_compute; reflexivity
    |unfold U16_MAX; simpl; lia|unfold U16_MAX; simpl; lia|vm_compute; reflexivity|simpl; lia|simpl; lia].
Defined.

End KeyFacts.

(** ** The end of a game *)
Section GameOver.
Import Term.

Lemma digits_aux_ascii (fuel : nat) (n : Z) (acc : list Char) :
  ascii_line acc -> ascii_line (digits_aux fuel n acc) /\
  (length (digits_aux fuel n acc) <= fuel + length acc)%nat.
Proof.
  revert n acc; induction fuel as [|f IH]; intros n acc Ha; cbn [digits_aux]; [split; [exact Ha|lia]|].
  assert (Ha' : ascii_line ((48 + n mod 10) :: acc))
    by (constructor; [pose proof (Z.mod_pos_bound n 10); lia|exact Ha]).
  destruct (n <? 10); [split; [exact Ha'|cbn [length]; lia]|].
  destruct (IH (n / 10) _ Ha') as [H1 H2]; cbn [length] in H2; split; [exact H1|lia].
Qed.

Lemma game_over_lines_ok (score : Z) (win : bool) :
  lines_ok [if win then chars "You won!" else chars "Game over!"; chars "Score: " ++ decimal score; [];
            chars "Press any key to play again,"; chars "or CTRL+C to quit."].
Proof.
  destruct (digits_aux_ascii 20 score [] (Forall_nil _)) as [Ha Hl]; cbn [length] in Hl.
  fold (decimal score) in Ha, Hl.
  split; [discriminate|split; [|simpl; lia]].
  apply Forall_cons; [destruct win; (split; [unfold ascii_line; apply Forall_forall; intros c Hc; members Hc lia|simpl; lia])|].
  apply Forall_cons; [split|].
  { unfold ascii_line; apply Forall_app; split; [apply Forall_forall; intros c Hc; members Hc lia|exact Ha]. }
  { rewrite length_app; simpl length; lia. }
  repeat (apply Forall_cons; [split; [unfold ascii_line; apply Forall_forall; intros c Hc; members Hc lia|simpl; lia]|]).
  apply Forall_nil.
Qed.

End GameOver.

Section GameOverFacts.
Import Term.

(** X18: a lost game's [game_over] (on a terminal with no message, the body
    on the terminal) puts [DEAD_SNAKE_CHAR] on every body cell of the
    mirror, and on the device wherever the final message box does not cover
    the cell; the message box it shows is the one [show_message] computes. *)
Theorem game_over_marks_body (t t' : TermManager) (s : Snake) (score : Z)
    (Hs : sized t) (Hm : current_msg t = None) (Hin : forall p, In p (body s) -> in_term t p)
    (H : game_over t s score false = Some t') :
  exists msg, current_msg t' = Some msg /\
    forall p, In p (body s) -> mirror_at t' p = Some DEAD_SNAKE_CHAR /\
      (~ in_box msg p -> device t' p = DEAD_SNAKE_CHAR).
Proof.
  unfold game_over in H; cbn [negb] in H.
  destruct (for_each (fun t pos => print_at t pos DEAD_SNAKE_CHAR) (body s) t) as [t1|] eqn:E1;
    [|discriminate].
  set (I := fun u => sized u /\ width u = width t /\ height u = height t /\ current_msg u = None).
  assert (HI : forall a t2 t3, In a (body s) -> print_at t2 a DEAD_SNAKE_CHAR = Some t3 -> I t2 -> I t3).
  { intros a t2 t3 Ha Hp (S2 & W2 & H2 & M2).
    destruct (print_at_step t2 t3 a _ S2 (in_term_same _ _ _ W2 H2 (Hin a Ha)) Hp)
      as (S3 & W3 & H3 & M3 & _).
    repeat split; [exact S3|congruence|congruence|congruence]. }
  assert (Hcell : forall a, In a (body s) -> cell t1 a DEAD_SNAKE_CHAR).
  { apply (for_each_establish_inv _ I (fun a u => cell u a DEAD_SNAKE_CHAR) (body s) t t1 HI);
      [| |split; [exact Hs|repeat split; exact Hm]|exact E1].
    - intros a b t2 t3 Ha Hb Hp (S2 & W2 & H2 & M2) Hc.
      destruct (print_at_step t2 t3 a _ S2 (in_term_same _ _ _ W2 H2 (Hin a Ha)) Hp)
        as (_ & _ & _ & _ & Ca & K & _).
      destruct (coords_dec b a) as [->|Hba]; [exact Ca|].
      exact (K b _ (in_term_same _ _ _ W2 H2 (Hin b Hb)) Hba Hc).
    - intros a t2 t3 Ha Hp (S2 & W2 & H2 & M2).
      destruct (print_at_step t2 t3 a _ S2 (in_term_same _ _ _ W2 H2 (Hin a Ha)) Hp)
        as (_ & _ & _ & _ & Ca & _); exact Ca. }
  assert (HI1 : I t1)
    by (apply (for_each_invariant _ I (body s) t t1 HI E1); split; [exact Hs|repeat split; exact Hm]).
  destruct HI1 as (_ & _ & _ & M1).
  destruct (show_message_outside t1 t' _ M1 (game_over_lines_ok score false) H)
    as (msg & _ & Hm' & Hw' & _ & Hs' & Hout).
  exists msg; split; [exact Hm'|].
  intros p Hp; destruct (Hcell p Hp) as [Cm Cd].
  split; [rewrite (mirror_at_same _ _ _ Hw' Hs'); exact Cm|intros Hb; rewrite (Hout p Hb); exact Cd].
Qed.

Definition wide_snake : Snake := mkSnake [(1, 1); (2, 1); (3, 1)] Left false.

Definition game_over_wide : TermManager :=
  match game_over blank_wide wide_snake 3 false with Some t => t | None => blank_wide end.

Lemma game_over_marks_body_witness :
  game_over blank_wide wide_snake 3 false = Some game_over_wide /\
  exists msg, current_msg game_over_wide = Some msg /\
    forall p, In p (body wide_snake) -> mirror_at game_over_wide p = Some DEAD_SNAKE_CHAR /\
      (~ in_box msg p -> device game_over_wide p = DEAD_SNAKE_CHAR).
Proof.
  assert (E : game_over blank_wide wide_snake 3 false = Some game_over_wide) by (vm_compute; reflexivity).
  split; [exact E|].
  apply (game_over_marks_body blank_wide game_over_wide wide_snake 3);
    [reflexivity|reflexivity|intros p Hp; members Hp ltac:(unfold in_term; simpl; lia)|exact E].
Defined.

End GameOverFacts.
